(** * Parent-side component lifecycle of zoid: a shallow embedding

    Source: [src/component/parent/index.js], class [ParentComponent].

    Promises are modelled by their settled outcome: a method returning a
    [ZalgoPromise] becomes a state transformer returning [Resolved] or
    [Rejected].  ZalgoPromise runs callbacks synchronously once a promise is
    settled, so a chain [p.then(f).catch(h)] is the sequential composition of
    its links.  Every call into a collaborator (callbacks in [props], the
    driver, DOM helpers, the cleanup registry) is appended to [trace].

    Collaborators are given by what they answer: a callback of [props] by
    its outcome, a helper by its result.  They do not call back into the
    instance while they run.  The order in which independent promises of
    [render()] settle is the subject of [RenderGraph], where every order
    the promise semantics allows is a run. *)

From stdpp Require Import base gmap list strings pretty.
From Stdlib Require Import ZArith Lia.

Local Open Scope string_scope.
Local Open Scope Z_scope.

(** ** Constants *)

(** [CLOSE_REASONS]; [REASON s] is a reason string sent by the child. *)
Inductive CloseReason :=
| PARENT_CALL
| USER_CLOSED
| CLOSE_DETECTED
| REASON (s : string).

#[global] Instance CloseReason_eq_dec : EqDecision CloseReason.
Proof. solve_decision. Defined.

#[global] Instance CloseReason_countable : Countable CloseReason.
Proof.
  refine (inj_countable'
            (fun r => match r with
                      | PARENT_CALL => inl 0%nat
                      | USER_CLOSED => inl 1%nat
                      | CLOSE_DETECTED => inl 2%nat
                      | REASON s => inr s
                      end)
            (fun x => match x with
                      | inl 0%nat => PARENT_CALL
                      | inl 1%nat => USER_CLOSED
                      | inl _ => CLOSE_DETECTED
                      | inr s => REASON s
                      end) _).
  intros []; reflexivity.
Defined.

(** [CONTEXT_TYPES]: the file only ever tests for the popup context; the
    names only appear in log and error messages. *)
Inductive Context :=
| POPUP
| CONTEXT (name : string).

Definition context_name (c : Context) : string :=
  match c with POPUP => "popup" | CONTEXT n => n end.

Definition is_popup (c : Context) : bool :=
  match c with POPUP => true | CONTEXT _ => false end.

(** [EVENTS], [CLASS_NAMES] and [ANIMATION_NAMES], as far as the file
    names their members. *)
Inductive EventName :=
| EVENTS_CLOSE
| EVENT (name : string).

Inductive ClassName :=
| CLASS_NAMES_OUTLET
| CLASS (name : string).

Inductive Animation :=
| ANIMATION_SHOW_CONTAINER
| ANIMATION_SHOW_COMPONENT
| ANIMATION_HIDE_CONTAINER
| ANIMATION_HIDE_COMPONENT.

(** ** Errors and settled promises *)

Inductive Err :=
| Thrown (what : string)
    (* a value thrown or rejected by a collaborator or by the host *)
| Error (message : string)
    (* new Error(message) *)
| HandlingError (original secondary : Err).
    (* new Error(`An error was encountered while handling error:
       ${ stringifyError(original) } ${ stringifyError(secondary) }`) *)

Inductive Result (A : Type) :=
| Resolved (a : A)
| Rejected (e : Err).
Arguments Resolved {A} a.
Arguments Rejected {A} e.

(** The readiness signal [this.onInit]. *)
Inductive Signal :=
| Pending
| Ready
| Failed (e : Err).

(** [promise.reject(err)]: a settled promise stays as it is. *)
Definition signal_reject (e : Err) (s : Signal) : Signal :=
  match s with Pending => Failed e | _ => s end.

(** ** Data of the instance *)

(** Elements and unique ids are named by numbers. *)
Abbreviation Elem := nat (only parsing).
Abbreviation Uid := nat (only parsing).

(** A call of a memoized method: its name and its arguments.  The calls
    this file makes pass no argument or a close reason. *)
Abbreviation MemoKey := (string * option CloseReason)%type (only parsing).

(** The closures this file hands to [this.clean.register], and the
    teardown closures collaborators register through it: [Teardown name
    outcome] is a closure of a collaborator, with the promise its call
    returns. *)
Inductive CleanupAction :=
| RemoveActiveComponent
| DeleteGlobalWindow (uid : Uid)
| DeleteGlobalProps (uid : Uid)
| RemoveContainer
| Teardown (name : string) (outcome : Result unit).

Definition Task : Type := option string * CleanupAction.

Inductive Event :=
| Log (name : string)
| Invoke (call : MemoKey)
| TriggerOnce (event : EventName)
| OnClose (reason : CloseReason)
| OnError (e : Err)
| CleanAll
| Ran (a : CleanupAction)
| AnimateAndHide (el : Elem) (animation : Animation)
| ChildClose
| DriverResize (width height : option Z)
| SetOverflow (el : Elem) (value : string)
| ElementStoppedMoving (el : Elem)
| IsClosed (at_time : Z) (closed : bool)
| Delay (ms : Z)
| RenderTemplate (outlet : Elem)
| HideElement (el : Elem)
| AppendChild (parent child : Elem).

Record Props := {
  onClose : CloseReason -> Result unit;
  onError : option (Err -> Result unit);
  env : string
}.

Record Component := {
  tag : string;
  name : string;
  component_domain : string -> option string;
    (* this.component.getDomain(null, env) *)
  containerTemplate : bool;
  createError : string -> Err
    (* this.component.createError(message) *)
}.

Record Driver := {
  renderedIntoContainer : bool;
  driver_resize : option Z -> option Z -> Result unit
}.

Record ChildExports := {
  child_close : Result unit
}.

(** What [serializeMessage] is asked to serialize. *)
Inductive Payload :=
| PropsForChild
| ParentExports.

(** The [element] argument of [openContainer]: an element, or a selector
    for [getElement] to look up. *)
Inductive ElementRef :=
| AnElement (el : Elem)
| ASelector (selector : string).

(** Behaviour of the helpers imported from belter, post-robot and
    cross-domain-utils. *)
Record Helpers := {
  animate : Elem -> Animation -> list CleanupAction * Result unit;
    (* teardowns passed to clean.register, and the settled animation *)
  elementStoppedMoving : Elem -> Result unit;
  serializeMessage : string -> Payload -> string;
  matchDomain : string -> string -> bool;
  getElement : ElementRef -> Result (option Elem)
    (* what [getElement(element)] returns, or the error it throws *)
}.

Record Node := {
  tagName : string;
  classes : list ClassName;
  overflow : string
}.

(** A browsing context, as far as cross-domain-utils looks at it. *)
Record Window := {
  win_id : nat;
  win_top : nat;
  win_distance : nat;
  win_origin : string
}.

(** A proxy window: what [isClosed()] answers when asked at a given time. *)
Record ProxyWindow := {
  isClosed : Z -> Result bool
}.

Record Parent := {
  (* fixed at construction *)
  component : Component;
  context : Context;
  driver : Driver;
  props : Props;
  constructor_props : Props;   (* the constructor's [props] argument *)
  helpers : Helpers;
  window : Window;
  (* instance fields *)
  childExports : option ChildExports;
  onInit : option Signal;
  errored : bool;
  clean : list Task;
  container : option Elem;
  element : option Elem;
  memoized_calls : gmap MemoKey (Result unit);  (* the caches of @memoized *)
  memoized_outlet : option Elem;                (* the cache of getOutlet *)
  (* the page: global.props, global.windows, uniqueID, document, clock *)
  global_props : gmap Uid string;
  global_windows : gmap Uid Window;
  next_uid : Uid;
  document : list Node;
  now : Z;
  (* calls observed by collaborators *)
  trace : list Event
}.

Definition set_onInit (v : option Signal) (s : Parent) : Parent :=
  {| component := component s; context := context s; driver := driver s;
     props := props s; constructor_props := constructor_props s;
     helpers := helpers s; window := window s;
     childExports := childExports s; onInit := v; errored := errored s;
     clean := clean s; container := container s; element := element s;
     memoized_calls := memoized_calls s; memoized_outlet := memoized_outlet s;
     global_props := global_props s; global_windows := global_windows s;
     next_uid := next_uid s; document := document s; now := now s;
     trace := trace s |}.

Definition set_errored (v : bool) (s : Parent) : Parent :=
  {| component := component s; context := context s; driver := driver s;
     props := props s; constructor_props := constructor_props s;
     helpers := helpers s; window := window s;
     childExports := childExports s; onInit := onInit s; errored := v;
     clean := clean s; container := container s; element := element s;
     memoized_calls := memoized_calls s; memoized_outlet := memoized_outlet s;
     global_props := global_props s; global_windows := global_windows s;
     next_uid := next_uid s; document := document s; now := now s;
     trace := trace s |}.

Definition set_clean (v : list Task) (s : Parent) : Parent :=
  {| component := component s; context := context s; driver := driver s;
     props := props s; constructor_props := constructor_props s;
     helpers := helpers s; window := window s;
     childExports := childExports s; onInit := onInit s; errored := errored s;
     clean := v; container := container s; element := element s;
     memoized_calls := memoized_calls s; memoized_outlet := memoized_outlet s;
     global_props := global_props s; global_windows := global_windows s;
     next_uid := next_uid s; document := document s; now := now s;
     trace := trace s |}.

Definition set_container (v : option Elem) (s : Parent) : Parent :=
  {| component := component s; context := context s; driver := driver s;
     props := props s; constructor_props := constructor_props s;
     helpers := helpers s; window := window s;
     childExports := childExports s; onInit := onInit s; errored := errored s;
     clean := clean s; container := v; element := element s;
     memoized_calls := memoized_calls s; memoized_outlet := memoized_outlet s;
     global_props := global_props s; global_windows := global_windows s;
     next_uid := next_uid s; document := document s; now := now s;
     trace := trace s |}.

Definition set_element (v : option Elem) (s : Parent) : Parent :=
  {| component := component s; context := context s; driver := driver s;
     props := props s; constructor_props := constructor_props s;
     helpers := helpers s; window := window s;
     childExports := childExports s; onInit := onInit s; errored := errored s;
     clean := clean s; container := container s; element := v;
     memoized_calls := memoized_calls s; memoized_outlet := memoized_outlet s;
     global_props := global_props s; global_windows := global_windows s;
     next_uid := next_uid s; document := document s; now := now s;
     trace := trace s |}.

Definition set_memoized_calls (v : gmap MemoKey (Result unit)) (s : Parent) : Parent :=
  {| component := component s; context := context s; driver := driver s;
     props := props s; constructor_props := constructor_props s;
     helpers := helpers s; window := window s;
     childExports := childExports s; onInit := onInit s; errored := errored s;
     clean := clean s; container := container s; element := element s;
     memoized_calls := v; memoized_outlet := memoized_outlet s;
     global_props := global_props s; global_windows := global_windows s;
     next_uid := next_uid s; document := document s; now := now s;
     trace := trace s |}.

Definition set_memoized_outlet (v : option Elem) (s : Parent) : Parent :=
  {| component := component s; context := context s; driver := driver s;
     props := props s; constructor_props := constructor_props s;
     helpers := helpers s; window := window s;
     childExports := childExports s; onInit := onInit s; errored := errored s;
     clean := clean s; container := container s; element := element s;
     memoized_calls := memoized_calls s; memoized_outlet := v;
     global_props := global_props s; global_windows := global_windows s;
     next_uid := next_uid s; document := document s; now := now s;
     trace := trace s |}.

Definition set_global_props (v : gmap Uid string) (s : Parent) : Parent :=
  {| component := component s; context := context s; driver := driver s;
     props := props s; constructor_props := constructor_props s;
     helpers := helpers s; window := window s;
     childExports := childExports s; onInit := onInit s; errored := errored s;
     clean := clean s; container := container s; element := element s;
     memoized_calls := memoized_calls s; memoized_outlet := memoized_outlet s;
     global_props := v; global_windows := global_windows s;
     next_uid := next_uid s; document := document s; now := now s;
     trace := trace s |}.

Definition set_global_windows (v : gmap Uid Window) (s : Parent) : Parent :=
  {| component := component s; context := context s; driver := driver s;
     props := props s; constructor_props := constructor_props s;
     helpers := helpers s; window := window s;
     childExports := childExports s; onInit := onInit s; errored := errored s;
     clean := clean s; container := container s; element := element s;
     memoized_calls := memoized_calls s; memoized_outlet := memoized_outlet s;
     global_props := global_props s; global_windows := v;
     next_uid := next_uid s; document := document s; now := now s;
     trace := trace s |}.

Definition set_next_uid (v : Uid) (s : Parent) : Parent :=
  {| component := component s; context := context s; driver := driver s;
     props := props s; constructor_props := constructor_props s;
     helpers := helpers s; window := window s;
     childExports := childExports s; onInit := onInit s; errored := errored s;
     clean := clean s; container := container s; element := element s;
     memoized_calls := memoized_calls s; memoized_outlet := memoized_outlet s;
     global_props := global_props s; global_windows := global_windows s;
     next_uid := v; document := document s; now := now s;
     trace := trace s |}.

Definition set_document (v : list Node) (s : Parent) : Parent :=
  {| component := component s; context := context s; driver := driver s;
     props := props s; constructor_props := constructor_props s;
     helpers := helpers s; window := window s;
     childExports := childExports s; onInit := onInit s; errored := errored s;
     clean := clean s; container := container s; element := element s;
     memoized_calls := memoized_calls s; memoized_outlet := memoized_outlet s;
     global_props := global_props s; global_windows := global_windows s;
     next_uid := next_uid s; document := v; now := now s;
     trace := trace s |}.

Definition set_now (v : Z) (s : Parent) : Parent :=
  {| component := component s; context := context s; driver := driver s;
     props := props s; constructor_props := constructor_props s;
     helpers := helpers s; window := window s;
     childExports := childExports s; onInit := onInit s; errored := errored s;
     clean := clean s; container := container s; element := element s;
     memoized_calls := memoized_calls s; memoized_outlet := memoized_outlet s;
     global_props := global_props s; global_windows := global_windows s;
     next_uid := next_uid s; document := document s; now := v;
     trace := trace s |}.

Definition set_trace (v : list Event) (s : Parent) : Parent :=
  {| component := component s; context := context s; driver := driver s;
     props := props s; constructor_props := constructor_props s;
     helpers := helpers s; window := window s;
     childExports := childExports s; onInit := onInit s; errored := errored s;
     clean := clean s; container := container s; element := element s;
     memoized_calls := memoized_calls s; memoized_outlet := memoized_outlet s;
     global_props := global_props s; global_windows := global_windows s;
     next_uid := next_uid s; document := document s; now := now s;
     trace := v |}.

(** ** The promise monad *)

Definition M (A : Type) : Type := Parent -> Parent * Result A.

(** [ZalgoPromise.resolve(a)], or a callback returning [a]. *)
Definition ret {A} (a : A) : M A := fun s => (s, Resolved a).

(** A callback that throws. *)
Definition throw {A} (e : Err) : M A := fun s => (s, Rejected e).

(** [p.then(f)]. *)
Definition bind {A B} (p : M A) (f : A -> M B) : M B :=
  fun s =>
    match p s with
    | (s', Resolved a) => f a s'
    | (s', Rejected e) => (s', Rejected e)
    end.

(** [p.catch(h)]. *)
Definition catch {A} (p : M A) (h : Err -> M A) : M A :=
  fun s =>
    match p s with
    | (s', Resolved a) => (s', Resolved a)
    | (s', Rejected e) => h e s'
    end.

(** [ZalgoPromise.all([ p, q ])]: both calls are made, in order, before the
    results are joined; the first rejection wins. *)
Definition all2 {A B} (p : M A) (q : M B) : M (A * B) :=
  fun s =>
    let '(s1, r1) := p s in
    let '(s2, r2) := q s1 in
    (s2, match r1, r2 with
         | Resolved a, Resolved b => Resolved (a, b)
         | Rejected e, _ => Rejected e
         | _, Rejected e => Rejected e
         end).

(** [p.finally(q)]: [q] runs either way; its failure replaces the outcome
    of [p]. *)
Definition finally {A} (p : M A) (q : M unit) : M A :=
  fun s =>
    let '(s1, r1) := p s in
    match q s1 with
    | (s2, Resolved _) => (s2, r1)
    | (s2, Rejected e) => (s2, Rejected e)
    end.

Notation "p >>= f" := (bind p f) (at level 58, left associativity).
Notation "p >> q" := (bind p (fun _ => q)) (at level 58, left associativity).

Definition emit (e : Event) : M unit :=
  fun s => (set_trace (trace s ++ [e]) s, Resolved tt).

(** [this.component.log(name)]. *)
Definition log (name : string) : M unit := emit (Log name).

(** [this.event.triggerOnce(name)]. *)
Definition triggerOnce (name : EventName) : M unit := emit (TriggerOnce name).

(** [this.props.onClose(reason)]. *)
Definition props_onClose (reason : CloseReason) : M unit :=
  fun s => (set_trace (trace s ++ [OnClose reason]) s, onClose (props s) reason).

(** ** Cleanup registry *)

(** Modelled from the spec: the registry behind [this.clean] ([cleanup] of
    [lib], not part of the file): an ordered collection of (optional tag,
    action) pairs; [run(tag)] executes and removes the entries with that
    tag; [all()] executes every remaining action in registration order and
    clears the registry; [hasTasks()] reports non-emptiness.  An action is
    a closure that is called and returns; the spec gives a call no
    outcome, and what the closure returns, a promise that rejects
    included, is not looked at. *)
Module Cleanup.

(** Modelled from the spec: one registered action, executed. *)
Definition run_action (a : CleanupAction) : M unit :=
  fun s =>
    let s := set_trace (trace s ++ [Ran a]) s in
    match a with
    | RemoveActiveComponent => (s, Resolved tt)
    | DeleteGlobalWindow uid =>
        (set_global_windows (delete uid (global_windows s)) s, Resolved tt)
    | DeleteGlobalProps uid =>
        (set_global_props (delete uid (global_props s)) s, Resolved tt)
    | RemoveContainer => (set_container None s, Resolved tt)
    | Teardown _ _ => (s, Resolved tt)
    end.

(** Modelled from the spec: the actions of [ts] executed in order. *)
Fixpoint run_tasks (ts : list Task) : M unit :=
  match ts with
  | [] => ret tt
  | t :: ts' =>
      fun s =>
        let '(s1, r1) := run_action t.2 s in
        let '(s2, r2) := run_tasks ts' s1 in
        (s2, r2)
  end.

Definition has_tag (tag : string) (t : Task) : bool :=
  bool_decide (t.1 = Some tag).

(** Modelled from the spec: [register(tag, action)] and [register(action)]
    add an entry at the end. *)
Definition register (tag : option string) (a : CleanupAction) : M unit :=
  fun s => (set_clean (clean s ++ [(tag, a)]) s, Resolved tt).

(** Modelled from the spec: [hasTasks()] reports non-emptiness. *)
Definition hasTasks (s : Parent) : bool :=
  match clean s with [] => false | _ => true end.

(** Modelled from the spec: [run(tag)] executes and removes the entries
    with that tag. *)
Definition run (tag : string) : M unit :=
  fun s =>
    let hit := List.filter (has_tag tag) (clean s) in
    let rest := List.filter (fun t => negb (has_tag tag t)) (clean s) in
    run_tasks hit (set_clean rest s).

(** Modelled from the spec: [all()] executes every remaining action in
    registration order and clears the registry. *)
Definition all : M unit :=
  fun s =>
    let ts := clean s in
    run_tasks ts (set_clean [] (set_trace (trace s ++ [CleanAll]) s)).

End Cleanup.

(** ** Memoization *)

(** The [@memoized] decorator of belter: on the instance, one cache per
    decorated method, keyed by the arguments of the call.  The method runs
    when the cache has no entry for the arguments it is called with, and
    the promise it returns is stored under them; a later call with the
    same arguments returns the stored promise.  So [close()] and
    [close(reason)] are two entries, also when [reason] is the default.
    [Invoke call] marks each run of the method. *)
Definition memoized (call : MemoKey) (method : M unit) : M unit :=
  fun s =>
    match memoized_calls s !! call with
    | Some r => (s, r)
    | None =>
        let '(s1, r) := method (set_trace (trace s ++ [Invoke call]) s) in
        (set_memoized_calls (<[call := r]> (memoized_calls s1)) s1, r)
    end.

(** ** Lifecycle *)

(** [animateAndHide(el, name, this.clean.register)]. *)
Definition animateAndHide (el : Elem) (animation : Animation) : M unit :=
  fun s =>
    let '(teardowns, r) := animate (helpers s) el animation in
    (set_clean (clean s ++ map (fun a => (None, a)) teardowns)
       (set_trace (trace s ++ [AnimateAndHide el animation]) s), r).

Definition hideContainer : M unit :=
  memoized ("hideContainer", None)
    (fun s =>
       match container s with
       | Some el => animateAndHide el ANIMATION_HIDE_CONTAINER s
       | None => ret tt s
       end).

Definition hideComponent : M unit :=
  memoized ("hideComponent", None)
    (fun s =>
       match element s with
       | Some el => animateAndHide el ANIMATION_HIDE_COMPONENT s
       | None => ret tt s
       end).

Definition cancelContainerEvents : M unit :=
  Cleanup.run "destroyContainerEvents".

Definition destroyComponent : M unit :=
  Cleanup.run "destroyUnloadWindowListener" >>
  Cleanup.run "destroyCloseWindowListener" >>
  Cleanup.run "destroyContainerEvents" >>
  Cleanup.run "destroyWindow".

Definition destroyContainer : M unit :=
  memoized ("destroyContainer", None)
    (Cleanup.run "destroyContainerEvents" >>
     Cleanup.run "destroyContainerTemplate").

(** [this.childExports.close().catch(noop)], in the popup context only. *)
Definition close_child : M unit :=
  fun s =>
    match childExports s with
    | Some _ =>
        if is_popup (context s)
        then (set_trace (trace s ++ [ChildClose]) s, Resolved tt)
        else (s, Resolved tt)
    | None => (s, Resolved tt)
    end.

Definition default_reason (reason : option CloseReason) : CloseReason :=
  match reason with Some r => r | None => PARENT_CALL end.

(** The close methods take the reason as an optional argument: [None] is
    a call without argument, for which the parameter's default,
    [PARENT_CALL], stands in. *)
Definition closeComponent (reason : option CloseReason) : M unit :=
  memoized ("closeComponent", reason)
    (cancelContainerEvents >>
     (triggerOnce EVENTS_CLOSE >> props_onClose (default_reason reason)) >>
     hideComponent >>
     destroyComponent >>
     close_child).

Definition closeContainer (reason : option CloseReason) : M unit :=
  memoized ("closeContainer", reason)
    ((triggerOnce EVENTS_CLOSE >> props_onClose (default_reason reason)) >>
     (all2 (closeComponent (Some (default_reason reason))) hideContainer) >>
     destroyContainer).

Definition destroy : M unit :=
  fun s =>
    if Cleanup.hasTasks s
    then (log "destroy" >> Cleanup.all) s
    else ret tt s.

Definition close (reason : option CloseReason) : M unit :=
  memoized ("close", reason)
    ((log "close" >> triggerOnce EVENTS_CLOSE >>
      props_onClose (default_reason reason)) >>
     (all2 (closeComponent None) (closeContainer None)) >>
     destroy).

Definition userClose : M unit :=
  emit (Invoke ("userClose", None)) >> close (Some USER_CLOSED).

(** [registerActiveComponent()], as far as the registry goes. *)
Definition registerActiveComponent : M unit :=
  Cleanup.register None RemoveActiveComponent.

(** [watchForUnload()]: the unload listener and its cancel. *)
Definition watchForUnload : M unit :=
  Cleanup.register (Some "destroyUnloadWindowListener")
    (Teardown "unloadWindowListener.cancel" (Resolved tt)).

(** [watchForClose(win)]: the close listener and its cancel. *)
Definition watchForClose : M unit :=
  Cleanup.register (Some "destroyCloseWindowListener")
    (Teardown "closeWindowListener.cancel" (Resolved tt)).

(** The callback [watchForClose] installs, run when the child window is
    found closed. *)
Definition close_detected : M unit :=
  log "detect_close_child" >> finally (props_onClose CLOSE_DETECTED) destroy.


(** [this.props.onError(err)] for a supplied callback [f]. *)
Definition call_onError (f : Err -> Result unit) (err : Err) : M unit :=
  fun s => (set_trace (trace s ++ [OnError err]) s, f err).

Definition signal_of (o : option Signal) : Signal :=
  match o with Some g => g | None => Pending end.

(** [error(err, props)]: [None] is the bare [return] of the guard, which
    hands back no promise. *)
Definition error (err : Err) (p : Props) (s : Parent)
  : Parent * option (Result unit) :=
  if errored s then (s, None)
  else
    let handling : M unit :=
      catch
        ((fun s1 =>
            destroy (set_onInit (Some (signal_reject err (signal_of (onInit s1)))) s1))
         >> (match onError p with
             | Some f => call_onError f err
             | None => ret tt
             end))
        (fun errErr => throw (HandlingError err errErr))
      >> (match onError p with
          | None => throw err
          | Some _ => ret tt
          end) in
    let '(s', r) := handling (set_errored true s) in
    (s', Some r).

(** [error(err)]: the [props] parameter defaults to [this.props]. *)
Definition error_default (err : Err) (s : Parent) : Parent * option (Result unit) :=
  error err (props s) s.

(** ** Close check *)

(** [win.isClosed()]. *)
Definition win_isClosed (win : ProxyWindow) : M bool :=
  fun s =>
    match isClosed win (now s) with
    | Resolved b => (set_trace (trace s ++ [IsClosed (now s) b]) s, Resolved b)
    | Rejected e => (s, Rejected e)
    end.

(** [ZalgoPromise.delay(ms)]. *)
Definition delay (ms : Z) : M unit :=
  fun s => (set_now (now s + ms) (set_trace (trace s ++ [Delay ms]) s), Resolved tt).

Definition checkClose (win : ProxyWindow) : M unit :=
  win_isClosed win >>= fun closed =>
    if closed : bool then userClose
    else
      (delay 200 >> win_isClosed win) >>= fun secondClosed =>
        if secondClosed : bool then userClose else ret tt.

(** ** Resize *)

Definition with_overflow (v : string) (n : Node) : Node :=
  {| tagName := tagName n; classes := classes n; overflow := v |}.

Definition overflow_of (el : Elem) (s : Parent) : string :=
  match document s !! el with Some n => overflow n | None => "" end.

(** [el.style.overflow = value]. *)
Definition write_overflow (el : Elem) (value : string) : M unit :=
  fun s =>
    (set_document (alter (with_overflow value) el (document s))
       (set_trace (trace s ++ [SetOverflow el value]) s), Resolved tt).

(** [setOverflow(el, value)]: returns the handle whose [reset()] writes the
    previous value back; the handle is represented by that value. *)
Definition setOverflow (el : Elem) (value : string) : M string :=
  fun s =>
    let previous := overflow_of el s in
    ((write_overflow el value s).1, Resolved previous).

Definition overflow_reset (el : Elem) (previous : string) : M unit :=
  write_overflow el previous.

(** [elementStoppedMoving(el)]: the event is recorded when the signal fires. *)
Definition await_elementStoppedMoving (el : Elem) : M unit :=
  fun s =>
    match elementStoppedMoving (helpers s) el with
    | Resolved _ => (set_trace (trace s ++ [ElementStoppedMoving el]) s, Resolved tt)
    | Rejected e => (s, Rejected e)
    end.

(** [this.driver.resize.call(this, width, height)]. *)
Definition call_driver_resize (width height : option Z) : M unit :=
  fun s =>
    (set_trace (trace s ++ [DriverResize width height]) s,
     driver_resize (driver s) width height).

Definition default_wait (waitForTransition : option bool) : bool :=
  match waitForTransition with Some b => b | None => true end.

Definition resize (width height : option Z) (waitForTransition : option bool) : M unit :=
  log "resize" >> call_driver_resize width height >>
  (if negb (default_wait waitForTransition) then ret tt
   else fun s =>
     match element s with
     | Some el =>
         (setOverflow el "hidden" >>= fun previous =>
            await_elementStoppedMoving el >> overflow_reset el previous) s
     | None => ret tt s
     end).

(** ** Outlet and container *)

Definition outlet_node : Node :=
  {| tagName := "div"; classes := [CLASS_NAMES_OUTLET]; overflow := "" |}.

(** [document.createElement(tag)]: elements are named by creation order. *)
Definition createElement (n : Node) (s : Parent) : Parent * Elem :=
  (set_document (document s ++ [n]) s, length (document s)).

(** [@memoized getOutlet()]. *)
Definition getOutlet (s : Parent) : Parent * Elem :=
  match memoized_outlet s with
  | Some el => (s, el)
  | None =>
      let '(s1, outlet) :=
        createElement outlet_node
          (set_trace (trace s ++ [Invoke ("getOutlet", None)]) s) in
      (set_memoized_outlet (Some outlet) s1, outlet)
  end.

(** [renderTemplate(renderer, { container })]: the renderer receives
    [outlet: this.getOutlet()] and builds the template's root element. *)
Definition renderTemplate (template_tag : string) : M Elem :=
  fun s =>
    let '(s1, outlet) := getOutlet s in
    let '(s2, root) :=
      createElement {| tagName := template_tag; classes := []; overflow := "" |}
        (set_trace (trace s1 ++ [RenderTemplate outlet]) s1) in
    (s2, Resolved root).

(** The [actions.close] that [renderTemplate] hands to a template:
    [() => this.userClose()]. *)
Definition template_close : M unit := userClose.

Definition hideElement (el : Elem) : M unit := emit (HideElement el).
Definition appendChild (parent child : Elem) : M unit := emit (AppendChild parent child).

(** [openContainer(element, { focus })] from [if (!el)] on: [el] is what
    the first statements of the method, [container_element] below, have
    put into [el].  The template renderer, [render] and [appendChild] are
    taken to return. *)
Definition openContainer (el : option Elem) : M unit :=
  fun s =>
    match el with
    | None => throw (Error "Could not find element to open container into") s
    | Some el =>
        if negb (containerTemplate (component s)) then
          if renderedIntoContainer (driver s)
          then throw (Error ("containerTemplate needed to render " ++ context_name (context s))) s
          else ret tt s
        else
          (renderTemplate "container" >>= fun container =>
             (fun s1 => ret tt (set_container (Some container) s1)) >>
             hideElement container >>
             appendChild el container >>
             (if renderedIntoContainer (driver s) then
                fun s1 =>
                  let '(s2, outlet) := getOutlet s1 in
                  (hideElement outlet >> hideElement outlet) (set_element (Some outlet) s2)
              else ret tt) >>
             Cleanup.register (Some "destroyContainerTemplate") RemoveContainer) s
    end.

(** ** Bootstrap payload *)

(** [WINDOW_REFERENCES] with the fields that go with each reference. *)
Inductive WindowRef :=
| OPENER
| TOP
| PARENT (distance : nat)
| GLOBAL (uid : Uid).

(** [INITIAL_PROPS]. *)
Inductive InitialProps :=
| RAW (value : string)
| UID (uid : Uid).

Record ChildPayload := {
  payload_name : string;
  payload_id : Uid;
  payload_context : Context;
  payload_domain : string;
  payload_uid : Uid;
  payload_tag : string;
  payload_componentParent : WindowRef;
  payload_props : InitialProps;
  payload_exports : string
}.

Definition uniqueID (s : Parent) : Parent * Uid :=
  (set_next_uid (S (next_uid s)) s, next_uid s).

Definition same_window (a b : Window) : bool := Nat.eqb (win_id a) (win_id b).
Definition isTop (w : Window) : bool := Nat.eqb (win_id w) (win_top w).
Definition isSameTopWindow (a b : Window) : bool := Nat.eqb (win_top a) (win_top b).

(** [isSameDomain(target)]: same origin as the current window. *)
Definition isSameDomain (target : Window) (s : Parent) : bool :=
  String.eqb (win_origin target) (win_origin (window s)).

Definition getComponentParentRef (renderToWindow : Window) (s : Parent)
  : Parent * WindowRef :=
  if is_popup (context s) then (s, OPENER)
  else if same_window renderToWindow (window s) then
    if isTop (window s) then (s, TOP)
    else (s, PARENT (win_distance (window s)))
  else
    let '(s1, uid) := uniqueID s in
    let s2 := set_global_windows (<[uid := window s1]> (global_windows s1)) s1 in
    let s3 := (Cleanup.register None (DeleteGlobalWindow uid) s2).1 in
    (s3, GLOBAL uid).

Definition buildChildWindowName (domain : string) (target : Window) (s : Parent)
  : Parent * ChildPayload :=
  let '(s1, uid) := uniqueID s in
  let sProps := serializeMessage (helpers s1) domain PropsForChild in
  let '(s2, componentParent) := getComponentParentRef target s1 in
  let props_ref := if isSameDomain target s2 then RAW sProps else UID uid in
  let s3 :=
    match props_ref with
    | UID _ =>
        (Cleanup.register None (DeleteGlobalProps uid)
           (set_global_props (<[uid := sProps]> (global_props s2)) s2)).1
    | RAW _ => s2
    end in
  let exports := serializeMessage (helpers s3) domain ParentExports in
  let '(s4, id) := uniqueID s3 in
  (s4, {| payload_name := name (component s4);
          payload_id := id;
          payload_context := context s4;
          payload_domain := win_origin (window s4);
          payload_uid := uid;
          payload_tag := tag (component s4);
          payload_componentParent := componentParent;
          payload_props := props_ref;
          payload_exports := exports |}).

(** ** Remote render *)

(** A falsy domain is an absent or an empty one. *)
Definition resolved_domain (s : Parent) : option string :=
  match component_domain (component s) (env (props s)) with
  | Some "" => None
  | d => d
  end.

Definition remote_render_message (domain origin : string) : string :=
  "Can not render remotely to " ++ domain ++ " - can only render to " ++ origin.

(** [checkAllowRemoteRender(target)]: [Rejected] is a thrown error. *)
Definition checkAllowRemoteRender (target : option Window) (s : Parent) : Result unit :=
  match target with
  | None => Rejected (createError (component s) "Must pass window to renderTo")
  | Some t =>
      if negb (isSameTopWindow (window s) t)
      then Rejected (Error "Can only renderTo an adjacent frame")
      else if isSameDomain t s then Resolved tt
      else
        let origin := win_origin (window s) in
        match resolved_domain s with
        | None => Rejected (Error "Could not determine domain to allow remote render")
        | Some domain =>
            if matchDomain (helpers s) domain origin then Resolved tt
            else Rejected (Error (remote_render_message domain origin))
        end
  end.

(** The [element] argument of [renderTo]: a selector, or some other value
    with its [typeof] and its text. *)
Inductive ElementArg :=
| Selector (s : string)
| NotAString (type_of text : string).

(** [tryInit(method)]: the promise handed back is [this.onInit] itself, so
    its state is reported as a [Signal].  A missing [onInit] makes the
    [catch] handler throw.  The constructor ends in
    [.catch(err => this.error(err, props))] on a chain that hands back
    [this.onInit], so that handler runs as [onInit] goes from pending to
    rejected, with the props the constructor was given. *)
Definition tryInit (method : M unit) (s : Parent) : Parent * Signal :=
  match method s with
  | (s1, Resolved _) => (s1, signal_of (onInit s1))
  | (s1, Rejected err) =>
      match onInit s1 with
      | Some Pending =>
          ((error err (constructor_props s1) (set_onInit (Some (Failed err)) s1)).1,
           Failed err)
      | Some g =>
          (set_onInit (Some (signal_reject err g)) s1, signal_reject err g)
      | None => (s1, Failed (Thrown "TypeError"))
      end
  end.

Section RenderTo.

(** [this.render(element, target)] and [this.delegate(target)]: the only
    two calls of [renderTo] that open windows or talk to other windows. *)
Variable render : option ElementArg -> Window -> M unit.
Variable delegate : Window -> M unit.

Definition renderTo_method (target : option Window) (element : option ElementArg) : M unit :=
  fun s =>
    if match target with Some t => same_window t (window s) | None => false end
    then render element (window s) s
    else
      match element with
      | Some (NotAString ty text) =>
          throw (Error ("Element passed to renderTo must be a string selector, got "
                          ++ ty ++ " " ++ text)) s
      | _ =>
          match checkAllowRemoteRender target s with
          | Rejected e => throw e s
          | Resolved _ =>
              match target with
              | Some t =>
                  (log ("render_" ++ context_name (context s) ++ "_to_win") >>
                   delegate t >>
                   render element t) s
              | None => ret tt s
              end
          end
      end.

Definition renderTo (target : option Window) (element : option ElementArg)
  : Parent -> Parent * Signal :=
  tryInit (renderTo_method target element).

End RenderTo.

(** ** The render task graph *)

(** [render()] builds [tasks] out of promises: a task is either a method
    called while the graph is built, or a callback attached with [then] to
    one promise or to [ZalgoPromise.all] of several.  A callback begins only
    once every promise it is attached to has resolved; if one of them
    rejects, the task's promise rejects without the callback having run. *)
Module RenderGraph.

Inductive Node :=
| onRender | getDomain | elementReady | openContainer | open | awaitWindow
| showContainer | setWindowName | watchForClose | prerender | showComponent
| openBridge | buildUrl | loadUrl | switchPrerender | runTimeout
| onInit.   (* this.onInit: settled by initChild or error, not by the graph *)

#[global] Instance Node_eq_dec : EqDecision Node.
Proof. solve_decision. Defined.

Inductive Source :=
| Called                       (* tasks.x = this.x() *)
| Then (p : Node)              (* tasks.x = p.then(() => this.x()) *)
| AllThen (ps : list Node)     (* tasks.x = ZalgoPromise.all(ps).then(...) *)
| External.                    (* not started by render *)

Definition source (renderedIntoContainer : bool) (t : Node) : Source :=
  match t with
  | onRender => Called
  | getDomain => Called
  | elementReady => Called
  | openContainer => Then elementReady
  | open => if renderedIntoContainer then Then openContainer else Called
  | awaitWindow => Then open
  | showContainer => Then openContainer
  | setWindowName => AllThen [open; getDomain]
  | watchForClose => AllThen [awaitWindow; setWindowName]
  | prerender => AllThen [open; openContainer]
  | showComponent => Then prerender
  | openBridge => AllThen [awaitWindow; getDomain; setWindowName]
  | buildUrl => Called
  | loadUrl => AllThen [open; buildUrl; setWindowName]
  | switchPrerender => AllThen [prerender; onInit]
  | runTimeout => Then loadUrl
  | onInit => External
  end.

Definition awaits (src : Source) : list Node :=
  match src with
  | Called => []
  | Then p => [p]
  | AllThen ps => ps
  | External => []
  end.

Inductive Step :=
| Begin (t : Node)      (* the task's method or callback starts *)
| Resolve (t : Node)    (* the task's promise resolves *)
| Reject (t : Node).    (* the task's promise rejects *)

#[global] Instance Step_eq_dec : EqDecision Step.
Proof. solve_decision. Defined.

Record Graph := {
  begun : list Node;
  resolved : list Node;
  rejected : list Node
}.

Definition initial : Graph := {| begun := []; resolved := []; rejected := [] |}.

Definition mem (t : Node) (l : list Node) : bool := bool_decide (t ∈ l).

Definition settled (g : Graph) (t : Node) : bool :=
  mem t (resolved g) || mem t (rejected g).

Definition is_external (src : Source) : bool :=
  match src with External => true | _ => false end.

(** One step of the event loop on the graph, [None] when the promise
    semantics does not allow it. *)
Definition step (ric : bool) (g : Graph) (e : Step) : option Graph :=
  match e with
  | Begin t =>
      if negb (is_external (source ric t)) && negb (mem t (begun g))
         && forallb (fun d => mem d (resolved g)) (awaits (source ric t))
      then Some {| begun := t :: begun g; resolved := resolved g; rejected := rejected g |}
      else None
  | Resolve t =>
      if (mem t (begun g) || is_external (source ric t)) && negb (settled g t)
      then Some {| begun := begun g; resolved := t :: resolved g; rejected := rejected g |}
      else None
  | Reject t =>
      if (mem t (begun g) || is_external (source ric t)
          || existsb (fun d => mem d (rejected g)) (awaits (source ric t)))
         && negb (settled g t)
      then Some {| begun := begun g; resolved := resolved g; rejected := t :: rejected g |}
      else None
  end.

Fixpoint run (ric : bool) (g : Graph) (es : list Step) : option Graph :=
  match es with
  | [] => Some g
  | e :: es' =>
      match step ric g e with
      | Some g' => run ric g' es'
      | None => None
      end
  end.

End RenderGraph.

(** ** Instances *)

(** The instance fields as the constructor first sets them: a pending
    [onInit], an empty registry, nothing rendered. *)
Definition blank (c : Component) (ctx : Context) (d : Driver) (p : Props)
  (h : Helpers) (w : Window) : Parent :=
  {| component := c; context := ctx; driver := d; props := p;
     constructor_props := p; helpers := h;
     window := w; childExports := None; onInit := Some Pending; errored := false;
     clean := []; container := None; element := None;
     memoized_calls := ∅; memoized_outlet := None;
     global_props := ∅; global_windows := ∅; next_uid := 0%nat;
     document := []; now := 0; trace := [] |}.

(** The instance as the constructor leaves it, after
    [registerActiveComponent()] and [watchForUnload()]. *)
Definition constructed (c : Component) (ctx : Context) (d : Driver) (p : Props)
  (h : Helpers) (w : Window) : Parent :=
  ((registerActiveComponent >> watchForUnload) (blank c ctx d p h w)).1.

Definition login_component : Component :=
  {| tag := "login-button"; name := "login";
     component_domain := fun _ => Some "https://shop.example";
     containerTemplate := true;
     createError := fun message => Error ("[login-button] " ++ message) |}.

Definition iframe_driver : Driver :=
  {| renderedIntoContainer := true; driver_resize := fun _ _ => Resolved tt |}.

Definition quiet_props : Props :=
  {| onClose := fun _ => Resolved tt;
     onError := Some (fun _ => Resolved tt);
     env := "production" |}.

Definition plain_helpers : Helpers :=
  {| animate := fun _ _ => ([], Resolved tt);
     elementStoppedMoving := fun _ => Resolved tt;
     serializeMessage := fun domain _ => domain;
     matchDomain := String.eqb;
     getElement := fun element =>
       match element with
       | AnElement el => Resolved (Some el)
       | ASelector selector =>
           if String.eqb selector "#login" then Resolved (Some 0%nat)
           else Rejected (Error ("Can not find element: " ++ selector))
       end |}.

Definition shop_window : Window :=
  {| win_id := 1; win_top := 0; win_distance := 1; win_origin := "https://shop.example" |}.

Definition login_instance : Parent :=
  constructed login_component (CONTEXT "iframe") iframe_driver quiet_props
    plain_helpers shop_window.



(** A proxy window whose [isClosed()] answers [false] until [at_time],
    and [true] from then on. *)
Definition closing_window (at_time : Z) : ProxyWindow :=
  {| isClosed := fun t => Resolved (at_time <=? t) |}.

(** The instance once its container is open: the outlet element exists
    and is the rendered element. *)
Definition rendered_instance : Parent :=
  set_element (Some 0%nat)
    (set_memoized_outlet (Some 0%nat)
       (set_document [{| tagName := "div"; classes := [CLASS_NAMES_OUTLET];
                         overflow := "auto" |}]
          login_instance)).

(** A component served from the partner's domain, and its instance in the
    shop window. *)
Definition partner_component : Component :=
  {| tag := "partner-badge"; name := "badge";
     component_domain := fun _ => Some "https://partner.example";
     containerTemplate := true;
     createError := fun message => Error ("[partner-badge] " ++ message) |}.

Definition badge_instance : Parent :=
  constructed partner_component (CONTEXT "iframe") iframe_driver quiet_props
    plain_helpers shop_window.

(** A sibling frame under the same top window, on another origin. *)
Definition partner_window : Window :=
  {| win_id := 2; win_top := 0; win_distance := 1;
     win_origin := "https://partner.example" |}.

(** A frame of another top-level window. *)
Definition foreign_window : Window :=
  {| win_id := 7; win_top := 7; win_distance := 0;
     win_origin := "https://partner.example" |}.

(** A [render] and a [delegate] that go through without failing. *)
Definition render_ok (element : option ElementArg) (target : Window) : M unit :=
  emit (Log "render").

Definition delegate_ok (target : Window) : M unit :=
  emit (Log "delegate").

(** ** Reading traces *)

Definition count (f : Event -> bool) (t : list Event) : nat :=
  length (List.filter f t).

Definition is_invoke (call : MemoKey) (e : Event) : bool :=
  match e with Invoke c => bool_decide (c = call) | _ => false end.


Definition is_onClose (e : Event) : bool :=
  match e with OnClose _ => true | _ => false end.

Definition is_cleanAll (e : Event) : bool :=
  match e with CleanAll => true | _ => false end.

(** How often the method has run for the call [call]. *)
Definition runs (call : MemoKey) (s : Parent) : nat :=
  count (is_invoke call) (trace s).

(** The reasons handed to [props.onClose], in order. *)
Fixpoint close_reasons (t : list Event) : list CloseReason :=
  match t with
  | [] => []
  | OnClose r :: t' => r :: close_reasons t'
  | _ :: t' => close_reasons t'
  end.





(** The state after the given calls have been observed. *)
Definition observe (evs : list Event) (s : Parent) : Parent :=
  set_trace (trace s ++ evs) s.

(** The events [m] appends when run from [s]. *)
Definition appended {A} (m : M A) (s : Parent) : list Event :=
  drop (length (trace s)) (trace (m s).1).

(** [checkClose(win)] at [s] ends in a user close. *)
Definition user_close_triggered (win : ProxyWindow) (s : Parent) : Prop :=
  Invoke ("userClose", None) ∈ appended (checkClose win) s.

(** Both polls of [checkClose(win)] at [s] report the window closed. *)
Definition both_checks_closed (win : ProxyWindow) (s : Parent) : Prop :=
  isClosed win (now s) = Resolved true /\
  isClosed win (now s + 200) = Resolved true.

(** [renderTo] rejects a cross-origin target whose own origin does not
    match the component's domain, with the message naming the domain and
    the current origin. *)
Definition foreign_target_refused
  (render : option ElementArg -> Window -> M unit) (delegate : Window -> M unit)
  (target : Window) (s : Parent) : Prop :=
  isSameDomain target s = false ->
  forall domain,
    resolved_domain s = Some domain ->
    matchDomain (helpers s) domain (win_origin target) = false ->
    (renderTo render delegate (Some target) None s).2 =
      Failed (Error (remote_render_message domain (win_origin (window s)))).

(** ** Vocabulary of the properties *)

Local Open Scope list_scope.

(** The teardowns of [ts] as they show in the trace. *)
Definition ran (ts : list Task) : list Event := map (fun t => Ran t.2) ts.

(** What [destroy] appends to the trace. *)
Definition destroy_events (s : Parent) : list Event :=
  if Cleanup.hasTasks s then [Log "destroy"; CleanAll] ++ ran (clean s) else [].

(** The state in which [error] starts its teardown: flag set, readiness
    signal rejected. *)
Definition error_started (err : Err) (s : Parent) : Parent :=
  set_onInit (Some (signal_reject err (signal_of (onInit s)))) (set_errored true s).

(** [error] invokes [onError] whenever it is supplied. *)
Definition notifies_onError (err : Err) (p : Props) (s : Parent) : Prop :=
  forall f, onError p = Some f -> OnError err ∈ trace (error err p s).1.

(** The memoization invariant outside the calls in [X], which are the ones
    currently running: a method has run at most once for given arguments,
    and not at all while the cache has no entry for them. *)
Definition memo_inv (X : gset MemoKey) (s : Parent) : Prop :=
  forall k, k ∉ X ->
    (runs k s <= 1)%nat /\ (memoized_calls s !! k = None -> runs k s = 0%nat).

(** [m] never changes a cache entry once it is there, maintains the
    invariant and leaves the running calls alone. *)
Definition keeps {A : Type} (X : gset MemoKey) (m : M A) : Prop :=
  (forall s k r,
     memoized_calls s !! k = Some r -> memoized_calls (m s).1 !! k = Some r) /\
  forall s, memo_inv X s ->
    memo_inv X (m s).1 /\
    forall k, k ∈ X ->
      runs k (m s).1 = runs k s /\
      memoized_calls (m s).1 !! k = memoized_calls s !! k.

(** Total weight of a trace. *)
Fixpoint total (w : Event -> Z) (t : list Event) : Z :=
  match t with
  | [] => 0
  | e :: t' => w e + total w t'
  end.

(** [m] appends events of total weight at most [n]. *)
Definition gains {A} (w : Event -> Z) (n : Z) (m : M A) : Prop :=
  forall s, exists evs, trace (m s).1 = trace s ++ evs /\ total w evs <= n.

(** Both at once. *)
Definition sound {A : Type} (w : Event -> Z) (X : gset MemoKey) (n : Z) (m : M A) : Prop :=
  keeps X m /\ gains w n m.

(** An event that is not the run of a memoized method. *)
Definition not_a_run (e : Event) : Prop := forall k, is_invoke k e = false.

(** The weight that counts nothing. *)
Definition no_weight (e : Event) : Z := 0.



(** Weighs the [onClose] calls made with a reason other than [PARENT_CALL]. *)
Definition other_reason_weight (e : Event) : Z :=
  match e with
  | OnClose PARENT_CALL => 0
  | OnClose _ => 1
  | _ => 0
  end.

(** * More of the instance *)

(** ** The element of the container *)

(** The first statements of [openContainer]: [el] is what
    [getElement(element)] returns, which may throw, when [element] is
    truthy, and [document.body], here [body], when it is not. *)
Definition container_element (body : option Elem) (element : option ElementRef)
  (s : Parent) : Result (option Elem) :=
  match element with
  | Some given => getElement (helpers s) given
  | None => Resolved body
  end.

(** [openContainer(element, { focus })] as a whole. *)
Definition openContainer_element (body : option Elem) (element : option ElementRef)
  : M unit :=
  fun s =>
    match container_element body element s with
    | Resolved el => openContainer el s
    | Rejected e => throw e s
    end.

(** ** Domain *)

(** What [getDomain()] reads of the component besides
    [getDomain(null, env)]: [buildUrl], when the component has one, with
    what it returns for [this.props], and [getDomain(url, env)]. *)
Record UrlBuilder := {
  component_buildUrl : option (Result string);
  domain_of_url : string -> string -> option string
}.

(** [getDomain()]. *)
Definition getDomain (u : UrlBuilder) (s : Parent) : Result string :=
  let found : Result (option string) :=
    match resolved_domain s with
    | Some domain => Resolved (Some domain)
    | None =>
        match component_buildUrl u with
        | Some (Resolved builtUrl) =>
            Resolved (domain_of_url u builtUrl (env (props s)))
        | Some (Rejected e) => Rejected e
        | None => Resolved None
        end
    end in
  match found with
  | Resolved (Some "") | Resolved None => Rejected (Error "Could not determine domain")
  | Resolved (Some domain) => Resolved domain
  | Rejected e => Rejected e
  end.

(** ** Props for the child and for a delegate *)

(** A prop definition, as far as the file reads it: [sendToChild] may be
    left out; [allowDelegate] is tested for truth. *)
Record PropDef := {
  sendToChild : option bool;
  allowDelegate : bool
}.

Section PropsSelection.

Context {V : Type}.

(** [this.component.getProp(key)]. *)
Variable getProp : string -> option PropDef.

(** [!prop || prop.sendToChild !== false]. *)
Definition sent_to_child (key : string) : bool :=
  match getProp key with
  | None => true
  | Some prop =>
      match sendToChild prop with
      | Some false => false
      | _ => true
      end
  end.

(** [getPropsForChild()]: the loop over [Object.keys(this.props)]. *)
Definition getPropsForChild (props : gmap string V) : gmap string V :=
  map_fold (fun key value result =>
              if sent_to_child key then <[key := value]> result else result)
    ∅ props.

(** The props object [delegate(target)] sends: four built-in props, then
    every prop of [getPropNames()] whose definition allows delegation.  A
    value is [this.props[name]], [None] when that is undefined; reading
    [allowDelegate] off a missing definition is a [TypeError]. *)
Definition delegate_props (propNames : list string) (props : gmap string V)
  : Result (gmap string (option V)) :=
  foldl (fun acc propName =>
           match acc with
           | Rejected e => Rejected e
           | Resolved result =>
               match getProp propName with
               | None => Rejected (Thrown "TypeError")
               | Some prop =>
                   if allowDelegate prop
                   then Resolved (<[propName := props !! propName]> result)
                   else Resolved result
               end
           end)
    (Resolved (<["onDisplay" := props !! "onDisplay"]>
                (<["onClose" := props !! "onClose"]>
                   (<["dimensions" := props !! "dimensions"]>
                      (<["uid" := props !! "uid"]> ∅)))))
    propNames.

(** The names under which [delegate] sends a value. *)
Definition delegate_builtins : list string :=
  ["uid"; "dimensions"; "onClose"; "onDisplay"].

Definition delegated (propNames : list string) (key : string) : bool :=
  bool_decide (key ∈ delegate_builtins) ||
  (bool_decide (key ∈ propNames) &&
   match getProp key with Some prop => allowDelegate prop | None => false end).

End PropsSelection.

(** ** Timeout and readiness *)

(** [promise.resolve(value)]: a settled promise stays as it is. *)
Definition signal_resolve (s : Signal) : Signal :=
  match s with Pending => Ready | _ => s end.

Definition set_childExports (v : option ChildExports) (s : Parent) : Parent :=
  {| component := component s; context := context s; driver := driver s;
     props := props s; constructor_props := constructor_props s;
     helpers := helpers s; window := window s;
     childExports := v; onInit := onInit s; errored := errored s;
     clean := clean s; container := container s; element := element s;
     memoized_calls := memoized_calls s; memoized_outlet := memoized_outlet s;
     global_props := global_props s; global_windows := global_windows s;
     next_uid := next_uid s; document := document s; now := now s;
     trace := trace s |}.

(** The instance with what [runTimeout] and [initChild] use besides:
    [this.props.timeout], [this.timeout], and the timers of the window:
    the pending [setTimeout] calls, each with its delay, and the id the
    next call returns. *)
Record Page := {
  instance : Parent;
  props_timeout : option Z;
  this_timeout : option nat;
  timers : gmap nat Z;
  next_timer : nat
}.

Definition set_instance (v : Parent) (pg : Page) : Page :=
  {| instance := v; props_timeout := props_timeout pg;
     this_timeout := this_timeout pg; timers := timers pg;
     next_timer := next_timer pg |}.

(** [clearTimeout(id)]. *)
Definition clearTimeout (id : nat) (pg : Page) : Page :=
  {| instance := instance pg; props_timeout := props_timeout pg;
     this_timeout := this_timeout pg; timers := delete id (timers pg);
     next_timer := next_timer pg |}.

(** The closure [runTimeout] registers: [clearTimeout(id); delete
    this.timeout]. *)
Definition clear_timer (id : nat) (pg : Page) : Page :=
  {| instance := instance pg; props_timeout := props_timeout pg;
     this_timeout := None; timers := delete id (timers pg);
     next_timer := next_timer pg |}.

(** In the registry that closure is a teardown known by its name; what it
    does to the page is done when the registry has run it. *)
Definition timer_teardown_name (id : nat) : string := "clearTimeout " +:+ pretty id.

Definition timer_teardown (id : nat) : CleanupAction :=
  Teardown (timer_teardown_name id) (Resolved tt).

Definition teardown_ran (name : string) (evs : list Event) : bool :=
  existsb (fun e => match e with
                    | Ran (Teardown n _) => String.eqb n name
                    | _ => false
                    end) evs.

(** The timer closures among the teardowns run in [evs], applied. *)
Definition run_timer_teardowns (evs : list Event) (pg : Page) : Page :=
  foldr (fun id pg' =>
           if teardown_ran (timer_teardown_name id) evs then clear_timer id pg' else pg')
    pg (seq 0 (next_timer pg)).

(** A method of the instance, run on the page. *)
Definition on_instance {A} (m : M A) (pg : Page) : Page * Result A :=
  let '(s', r) := m (instance pg) in
  (run_timer_teardowns (appended m (instance pg)) (set_instance s' pg), r).

(** [this.error(err)], run on the page. *)
Definition page_error (err : Err) (pg : Page) : Page :=
  let s' := (error_default err (instance pg)).1 in
  run_timer_teardowns (drop (length (trace (instance pg))) (trace s'))
    (set_instance s' pg).

(** [runTimeout()]: a timeout of [0], like a missing one, is falsy. *)
Definition runTimeout (pg : Page) : Page :=
  match props_timeout pg with
  | None => pg
  | Some timeout =>
      if timeout =? 0 then pg
      else
        let id := next_timer pg in
        {| instance := (Cleanup.register None (timer_teardown id) (instance pg)).1;
           props_timeout := props_timeout pg;
           this_timeout := Some id;
           timers := <[id := timeout]> (timers pg);
           next_timer := S id |}
  end.

Definition timeout_message (timeout : Z) : string :=
  "Loading component timed out after " +:+ pretty timeout +:+ " milliseconds".

(** The timer [id] comes due: its callback runs unless it was cleared.
    The error is built by [this.component.createError]. *)
Definition fire_timeout (id : nat) (pg : Page) : Page :=
  match timers pg !! id with
  | None => pg
  | Some timeout =>
      page_error (createError (component (instance pg)) (timeout_message timeout))
        (on_instance (log "timed_out") (clearTimeout id pg)).1
  end.

(** [initChild(childExports)]: timer ids are tested for truth, so an id of
    [0] would not be cleared. *)
Definition initChild (exports : ChildExports) (pg : Page) : Page * Result unit :=
  let s := set_childExports (Some exports) (instance pg) in
  match onInit s with
  | None => (set_instance s pg, Rejected (Thrown "TypeError"))
  | Some g =>
      let pg' := set_instance (set_onInit (Some (signal_resolve g)) s) pg in
      (match this_timeout pg with
       | Some id => if Nat.eqb id 0 then pg' else clearTimeout id pg'
       | None => pg'
       end, Resolved tt)
  end.

(** ** More instances *)

(** The login instance in a window whose next timer id is 1, with a
    timeout of five seconds. *)
Definition login_page : Page :=
  {| instance := login_instance; props_timeout := Some 5000;
     this_timeout := None; timers := ∅; next_timer := 1 |}.

(** The login instance of a host whose [onClose] refuses every close. *)
Definition vetoing_props : Props :=
  {| onClose := fun _ => Rejected (Error "stay"); onError := None; env := "production" |}.

Definition vetoing_instance : Parent :=
  constructed login_component (CONTEXT "iframe") iframe_driver vetoing_props
    plain_helpers shop_window.

(** Prop definitions of a component: [token] stays with the parent,
    [locale] may be delegated. *)
Definition sample_getProp (key : string) : option PropDef :=
  if String.eqb key "token" then Some {| sendToChild := Some false; allowDelegate := false |}
  else if String.eqb key "locale" then Some {| sendToChild := None; allowDelegate := true |}
  else None.

Definition sample_prop_values : gmap string string :=
  <["token" := "s3cr3t"]> (<["locale" := "en_US"]> (<["uid" := "abc"]> ∅)).


(** ** Reading the render graph *)

(** [depends ric t d]: task [t] waits, directly or through other tasks,
    for the promise of [d]. *)
Inductive depends (ric : bool) : RenderGraph.Node -> RenderGraph.Node -> Prop :=
| depends_on (t d : RenderGraph.Node) :
    d ∈ RenderGraph.awaits (RenderGraph.source ric t) -> depends ric t d
| depends_via (t m d : RenderGraph.Node) :
    depends ric t m -> depends ric m d -> depends ric t d.

(** What holds of the graph at every point of a run. *)
Definition graph_inv (ric : bool) (g : RenderGraph.Graph) : Prop :=
  (forall t, t ∈ RenderGraph.begun g ->
     RenderGraph.is_external (RenderGraph.source ric t) = false) /\
  (forall t d, t ∈ RenderGraph.begun g ->
     d ∈ RenderGraph.awaits (RenderGraph.source ric t) -> d ∈ RenderGraph.resolved g) /\
  (forall t, t ∈ RenderGraph.resolved g ->
     t ∈ RenderGraph.begun g \/ RenderGraph.is_external (RenderGraph.source ric t) = true) /\
  (forall t, t ∈ RenderGraph.resolved g -> t ∉ RenderGraph.rejected g).

(** A schedule of [render] in which every task goes through. *)
Definition full_render : list RenderGraph.Step :=
  [RenderGraph.Begin RenderGraph.onRender;
   RenderGraph.Begin RenderGraph.getDomain;
   RenderGraph.Begin RenderGraph.elementReady;
   RenderGraph.Begin RenderGraph.buildUrl;
   RenderGraph.Resolve RenderGraph.onRender;
   RenderGraph.Resolve RenderGraph.getDomain;
   RenderGraph.Resolve RenderGraph.elementReady;
   RenderGraph.Resolve RenderGraph.buildUrl;
   RenderGraph.Begin RenderGraph.openContainer;
   RenderGraph.Resolve RenderGraph.openContainer;
   RenderGraph.Begin RenderGraph.open;
   RenderGraph.Resolve RenderGraph.open;
   RenderGraph.Begin RenderGraph.awaitWindow;
   RenderGraph.Begin RenderGraph.showContainer;
   RenderGraph.Begin RenderGraph.setWindowName;
   RenderGraph.Begin RenderGraph.prerender;
   RenderGraph.Resolve RenderGraph.awaitWindow;
   RenderGraph.Resolve RenderGraph.showContainer;
   RenderGraph.Resolve RenderGraph.setWindowName;
   RenderGraph.Resolve RenderGraph.prerender;
   RenderGraph.Begin RenderGraph.watchForClose;
   RenderGraph.Begin RenderGraph.showComponent;
   RenderGraph.Begin RenderGraph.openBridge;
   RenderGraph.Begin RenderGraph.loadUrl;
   RenderGraph.Resolve RenderGraph.watchForClose;
   RenderGraph.Resolve RenderGraph.showComponent;
   RenderGraph.Resolve RenderGraph.openBridge;
   RenderGraph.Resolve RenderGraph.loadUrl;
   RenderGraph.Begin RenderGraph.runTimeout;
   RenderGraph.Resolve RenderGraph.runTimeout;
   RenderGraph.Resolve RenderGraph.onInit;
   RenderGraph.Begin RenderGraph.switchPrerender;
   RenderGraph.Resolve RenderGraph.switchPrerender].

(** A schedule of [render], for a driver that opens its own window, up to
    the start of [loadUrl]. *)
Definition load_schedule : list RenderGraph.Step :=
  [RenderGraph.Begin RenderGraph.getDomain; RenderGraph.Begin RenderGraph.open;
   RenderGraph.Begin RenderGraph.buildUrl; RenderGraph.Resolve RenderGraph.open;
   RenderGraph.Resolve RenderGraph.getDomain; RenderGraph.Resolve RenderGraph.buildUrl;
   RenderGraph.Begin RenderGraph.setWindowName;
   RenderGraph.Resolve RenderGraph.setWindowName;
   RenderGraph.Begin RenderGraph.loadUrl].

(** ** Reading the registry *)

(** The four tags [destroyComponent] runs. *)
Definition component_tags : list string :=
  ["destroyUnloadWindowListener"; "destroyCloseWindowListener";
   "destroyContainerEvents"; "destroyWindow"].

Definition has_any_tag (tags : list string) (t : Task) : bool :=
  existsb (fun tag => Cleanup.has_tag tag t) tags.

(** * Properties *)

Arguments Cleanup.run_tasks : simpl never.
Arguments Cleanup.run_action : simpl never.

(** ** What the cleanup registry touches *)

Lemma run_action_frame (a : CleanupAction) (s : Parent) :
  let s' := (Cleanup.run_action a s).1 in
  errored s' = errored s /\ onInit s' = onInit s /\
  memoized_calls s' = memoized_calls s /\ clean s' = clean s /\
  props s' = props s /\ context s' = context s /\
  childExports s' = childExports s /\ helpers s' = helpers s /\
  element s' = element s /\
  trace s' = trace s ++ [Ran a].
Proof. destruct a; unfold Cleanup.run_action; cbn; repeat split; reflexivity. Qed.

Lemma run_tasks_frame (ts : list Task) (s : Parent) :
  let s' := (Cleanup.run_tasks ts s).1 in
  errored s' = errored s /\ onInit s' = onInit s /\
  memoized_calls s' = memoized_calls s /\ clean s' = clean s /\
  props s' = props s /\ context s' = context s /\
  childExports s' = childExports s /\ helpers s' = helpers s /\
  element s' = element s /\
  trace s' = trace s ++ ran ts.
Proof.
  revert s. induction ts as [|t ts IH]; intros s; unfold Cleanup.run_tasks;
    fold Cleanup.run_tasks; cbn.
  - rewrite app_nil_r. repeat split; reflexivity.
  - pose proof (run_action_frame t.2 s) as Ha. cbn in Ha.
    destruct (Cleanup.run_action t.2 s) as [s1 r1]. cbn in Ha.
    pose proof (IH s1) as Hs. cbn in Hs.
    destruct (Cleanup.run_tasks ts s1) as [s2 r2]. cbn in Hs |- *.
    destruct Hs as (-> & -> & -> & -> & -> & -> & -> & -> & -> & ->).
    destruct Ha as (-> & -> & -> & -> & -> & -> & -> & -> & -> & ->).
    rewrite <- app_assoc. repeat split; reflexivity.
Qed.

Lemma destroy_frame (s : Parent) :
  let s' := (destroy s).1 in
  errored s' = errored s /\ onInit s' = onInit s /\
  memoized_calls s' = memoized_calls s /\
  props s' = props s /\ context s' = context s /\
  childExports s' = childExports s /\ helpers s' = helpers s /\
  element s' = element s /\
  clean s' = [] /\
  trace s' = trace s ++ destroy_events s.
Proof.
  unfold destroy, destroy_events, Cleanup.hasTasks.
  destruct (clean s) as [|t ts] eqn:Hc; cbn.
  - rewrite app_nil_r, Hc. repeat split; reflexivity.
  - unfold bind, log, emit, Cleanup.all. cbn. rewrite Hc.
    match goal with |- context [Cleanup.run_tasks ?l ?s0] =>
      pose proof (run_tasks_frame l s0) as H; cbn in H;
      destruct (Cleanup.run_tasks l s0) as [s2 r2] end.
    cbn in H |- *.
    destruct H as (-> & -> & -> & -> & -> & -> & -> & -> & -> & ->).
    rewrite <- !app_assoc. repeat split; reflexivity.
Qed.

(** ** error *)

Lemma error_unfold (err : Err) (p : Props) (s : Parent) :
  errored s = false ->
  error err p s =
    let '(sd, rd) := destroy (error_started err s) in
    match rd, onError p with
    | Resolved _, Some f =>
        (set_trace (trace sd ++ [OnError err]) sd,
         Some (match f err with
               | Resolved _ => Resolved tt
               | Rejected second => Rejected (HandlingError err second)
               end))
    | Resolved _, None => (sd, Some (Rejected err))
    | Rejected second, _ => (sd, Some (Rejected (HandlingError err second)))
    end.
Proof.
  intros He. unfold error. rewrite He. unfold bind, catch, throw, ret, error_started.
  destruct (destroy _) as [sd [[]|ed]]; cbn.
  - destruct (onError p) as [f|]; cbn; [|reflexivity].
    destruct (f err) as [[]|e2]; reflexivity.
  - destruct (onError p); reflexivity.
Qed.

Lemma error_sets_flag (err : Err) (p : Props) (s : Parent) :
  errored (error err p s).1 = true.
Proof.
  destruct (errored s) eqn:He.
  - unfold error. rewrite He. exact He.
  - rewrite (error_unfold err p s He).
    pose proof (destroy_frame (error_started err s)) as H. cbn zeta in H.
    destruct (destroy (error_started err s)) as [sd rd]. cbn in H.
    destruct H as (H & _).
    destruct rd as [[]|e]; [destruct (onError p)|]; cbn; exact H.
Qed.

(** C2: once [error(e1)] has set the [errored] flag, a later [error(e2)]
    returns at once, with no promise and no effect: the state, and with it
    the trace the host observes, is that of the first error's handling. *)
Theorem error_first_error_wins (e1 e2 : Err) (p1 p2 : Props) (s : Parent) :
  (forall s', errored s' = true -> error e2 p2 s' = (s', None)) /\
  errored (error_started e1 s) = true /\
  errored (error e1 p1 s).1 = true /\
  error e2 p2 (error e1 p1 s).1 = ((error e1 p1 s).1, None).
Proof.
  assert (Hguard : forall s', errored s' = true -> error e2 p2 s' = (s', None)).
  { intros s' He. unfold error. rewrite He. reflexivity. }
  split; [exact Hguard|]. split; [reflexivity|].
  split; [apply error_sets_flag|]. apply Hguard, error_sets_flag.
Qed.

Lemma run_tasks_resolves (ts : list Task) (s : Parent) :
  (Cleanup.run_tasks ts s).2 = Resolved tt.
Proof.
  revert s. induction ts as [|[tag a] ts IH]; intros s;
    unfold Cleanup.run_tasks; fold Cleanup.run_tasks; [reflexivity|].
  destruct (Cleanup.run_action (tag, a).2 s) as [s1 r1].
  specialize (IH s1). destruct (Cleanup.run_tasks ts s1) as [s2 r2]. exact IH.
Qed.

Lemma run_resolves (tag : string) (s : Parent) :
  (Cleanup.run tag s).2 = Resolved tt.
Proof. unfold Cleanup.run. apply run_tasks_resolves. Qed.

Lemma destroy_resolves (s : Parent) : (destroy s).2 = Resolved tt.
Proof.
  unfold destroy. destruct (Cleanup.hasTasks s); [|reflexivity].
  unfold bind, log, emit, Cleanup.all. cbn [fst snd]. apply run_tasks_resolves.
Qed.

Lemma error_onInit (err : Err) (p : Props) (s : Parent) :
  errored s = false ->
  onInit (error err p s).1 = Some (signal_reject err (signal_of (onInit s))).
Proof.
  intros He. rewrite (error_unfold err p s He).
  destruct (destroy_frame (error_started err s)) as (_ & Ho & _).
  destruct (destroy (error_started err s)) as [sd [[]|e]]; cbn [fst] in Ho;
    destruct (onError p); cbn; exact Ho.
Qed.

Lemma error_trace_clean (err : Err) (p : Props) (s : Parent) :
  errored s = false ->
  clean (error err p s).1 = [] /\
  trace (error err p s).1 =
    trace s ++ destroy_events s ++
    match onError p with Some _ => [OnError err] | None => [] end.
Proof.
  intros He. rewrite (error_unfold err p s He).
  destruct (destroy_frame (error_started err s)) as (_ & _ & _ & _ & _ & _ & _ & _ & Hc & Ht).
  pose proof (destroy_resolves (error_started err s)) as Hr.
  change (trace (error_started err s)) with (trace s) in Ht.
  change (destroy_events (error_started err s)) with (destroy_events s) in Ht.
  destruct (destroy (error_started err s)) as [sd rd]. cbn [fst snd] in *. subst rd.
  destruct (onError p); cbn [fst clean trace set_trace]; (split; [exact Hc|]).
  - rewrite Ht, <- app_assoc. reflexivity.
  - rewrite Ht, app_nil_r. reflexivity.
Qed.



(** ** Memoization *)

Lemma memoized_stores (k : MemoKey) (m : M unit) (s : Parent) :
  memoized_calls (memoized k m s).1 !! k = Some (memoized k m s).2.
Proof.
  unfold memoized. destruct (memoized_calls s !! k) eqn:Hk; cbn; [exact Hk|].
  destruct (m _) as [s1 r]. cbn. apply lookup_insert_eq.
Qed.

Lemma memoized_hit (k : MemoKey) (m : M unit) (s : Parent) (r : Result unit) :
  memoized_calls s !! k = Some r -> memoized k m s = (s, r).
Proof. intros H. unfold memoized. rewrite H. reflexivity. Qed.


Lemma count_app (f : Event -> bool) (t u : list Event) :
  count f (t ++ u) = (count f t + count f u)%nat.
Proof. unfold count. rewrite List.filter_app, length_app. reflexivity. Qed.

Lemma total_app (w : Event -> Z) (t u : list Event) :
  total w (t ++ u) = total w t + total w u.
Proof. induction t as [|e t IH]; cbn; [reflexivity|]. rewrite IH. lia. Qed.

Lemma sound_mono {A : Type} (w : Event -> Z) (X : gset MemoKey) (n n' : Z) (m : M A) :
  n <= n' -> sound w X n m -> sound w X n' m.
Proof.
  intros Hn [Hk Hg]. split; [exact Hk|].
  intros s. destruct (Hg s) as (evs & Ht & Hw). exists evs. split; [exact Ht|lia].
Qed.

Lemma sound_pointwise {A : Type} (w : Event -> Z) (X : gset MemoKey) (n : Z) (m : M A) :
  (forall s, exists m', sound w X n m' /\ m s = m' s) -> sound w X n m.
Proof.
  intros H. split; [split|].
  - intros s k r. destruct (H s) as (m' & [[Hs _] _] & ->). apply Hs.
  - intros s Hinv. destruct (H s) as (m' & [[_ Hk] _] & ->). apply Hk, Hinv.
  - intros s. destruct (H s) as (m' & [_ Hg] & ->). apply Hg.
Qed.

Lemma sound_bind {A B : Type} (w : Event -> Z) (X : gset MemoKey) (n1 n2 : Z)
  (m : M A) (f : A -> M B) :
  sound w X n1 m -> (forall a, sound w X n2 (f a)) -> 0 <= n2 ->
  sound w X (n1 + n2) (m >>= f).
Proof.
  intros [[Hs Hk] Hg] Hf Hn. split; [split|].
  - intros s k r Hr. unfold bind. specialize (Hs s k r Hr).
    destruct (m s) as [s1 [a|e]]; cbn in *; [|exact Hs].
    destruct (Hf a) as [[Hsa _] _]. apply Hsa, Hs.
  - intros s Hinv. unfold bind. destruct (Hk s Hinv) as [Hi Hx].
    destruct (m s) as [s1 [a|e]]; cbn in *; [|split; [exact Hi|exact Hx]].
    destruct (Hf a) as [[_ Hka] _]. destruct (Hka s1 Hi) as [Hi' Hx'].
    split; [exact Hi'|]. intros k Hkx.
    destruct (Hx k Hkx) as [<- <-]. apply Hx', Hkx.
  - intros s. unfold bind. destruct (Hg s) as (evs & Ht & Hw).
    destruct (m s) as [s1 [a|e]]; cbn in *.
    + destruct (Hf a) as [_ Hga]. destruct (Hga s1) as (evs' & Ht' & Hw').
      exists (evs ++ evs'). rewrite Ht', Ht, total_app, <- app_assoc.
      split; [reflexivity|lia].
    + exists evs. split; [exact Ht|lia].
Qed.

Lemma sound_all2 {A B : Type} (w : Event -> Z) (X : gset MemoKey) (n1 n2 : Z)
  (p : M A) (q : M B) :
  sound w X n1 p -> sound w X n2 q -> sound w X (n1 + n2) (all2 p q).
Proof.
  intros [[Hs Hk] Hg] [[Hs' Hk'] Hg']. split; [split|].
  - intros s k r Hr. unfold all2. specialize (Hs s k r Hr).
    destruct (p s) as [s1 r1]; cbn in *. specialize (Hs' s1 k r Hs).
    destruct (q s1) as [s2 r2]; cbn in *. exact Hs'.
  - intros s Hinv. unfold all2. destruct (Hk s Hinv) as [Hi Hx].
    destruct (p s) as [s1 r1]; cbn in *.
    destruct (Hk' s1 Hi) as [Hi' Hx'].
    destruct (q s1) as [s2 r2]; cbn in *.
    split; [exact Hi'|]. intros k Hkx.
    destruct (Hx k Hkx) as [<- <-]. apply Hx', Hkx.
  - intros s. unfold all2. destruct (Hg s) as (evs & Ht & Hw).
    destruct (p s) as [s1 r1]; cbn in *.
    destruct (Hg' s1) as (evs' & Ht' & Hw').
    destruct (q s1) as [s2 r2]; cbn in *.
    exists (evs ++ evs'). rewrite Ht', Ht, total_app, <- app_assoc.
    split; [reflexivity|lia].
Qed.

Lemma runs_emit_invoke (k k' : MemoKey) (s : Parent) :
  runs k' (set_trace (trace s ++ [Invoke k]) s) =
    (runs k' s + if bool_decide (k = k') then 1 else 0)%nat.
Proof.
  unfold runs. cbn [trace set_trace]. rewrite count_app. unfold count at 2. cbn.
  destruct (bool_decide (k = k')); reflexivity.
Qed.

Lemma sound_memoized (w : Event -> Z) (X : gset MemoKey) (n nb : Z)
  (k : MemoKey) (m : M unit) :
  k ∉ X -> sound w (X ∪ {[k]}) nb m -> w (Invoke k) + nb <= n -> 0 <= n ->
  sound w X n (memoized k m).
Proof.
  intros HkX [[Hs Hk] Hg] Hn H0. split; [split|].
  - intros s k' r Hr. unfold memoized.
    destruct (memoized_calls s !! k) eqn:Hmk; cbn; [exact Hr|].
    specialize (Hs (set_trace (trace s ++ [Invoke k]) s) k' r Hr).
    destruct (m _) as [s1 r1]. cbn [fst memoized_calls set_memoized_calls] in *.
    rewrite lookup_insert_ne; [exact Hs|]. intros ->. congruence.
  - intros s Hinv. unfold memoized.
    destruct (memoized_calls s !! k) eqn:Hmk; cbn.
    { split; [exact Hinv|]. intros; split; reflexivity. }
    set (s0 := set_trace (trace s ++ [Invoke k]) s).
    assert (Hinv0 : memo_inv (X ∪ {[k]}) s0).
    { intros k' Hk'. apply not_elem_of_union in Hk' as [Hk'X Hk'k].
      apply not_elem_of_singleton in Hk'k.
      unfold s0. rewrite runs_emit_invoke.
      rewrite bool_decide_eq_false_2 by congruence.
      rewrite Nat.add_0_r. cbn [memoized_calls set_trace]. apply Hinv, Hk'X. }
    destruct (Hk s0 Hinv0) as [Hi Hx].
    destruct (m s0) as [s1 r]. cbn [fst snd] in *.
    assert (Hrk : runs k s1 = 1%nat).
    { assert (Hin : k ∈ X ∪ {[k]}) by (apply elem_of_union; right; apply elem_of_singleton; reflexivity).
      destruct (Hx k Hin) as [-> _].
      unfold s0. rewrite runs_emit_invoke, bool_decide_eq_true_2 by reflexivity.
      destruct (Hinv k HkX) as [_ Hz]. rewrite (Hz Hmk). reflexivity. }
    split.
    + intros k' Hk'. unfold runs. cbn [trace memoized_calls set_memoized_calls].
      fold (runs k' s1). destruct (decide (k' = k)) as [->|Hne].
      * rewrite Hrk, lookup_insert_eq. split; [lia|discriminate].
      * rewrite lookup_insert_ne by congruence. apply Hi.
        apply not_elem_of_union. split; [exact Hk'|].
        apply not_elem_of_singleton. exact Hne.
    + intros k' Hk'. unfold runs. cbn [trace memoized_calls set_memoized_calls].
      fold (runs k' s1). assert (k' <> k) by (intros ->; contradiction).
      rewrite lookup_insert_ne by congruence.
      assert (Hin : k' ∈ X ∪ {[k]}) by (apply elem_of_union; left; exact Hk').
      destruct (Hx k' Hin) as [-> ->].
      unfold s0. rewrite runs_emit_invoke.
      rewrite bool_decide_eq_false_2 by congruence.
      rewrite Nat.add_0_r. split; reflexivity.
  - intros s. unfold memoized.
    destruct (memoized_calls s !! k) eqn:Hmk; cbn.
    { exists []. rewrite app_nil_r. split; [reflexivity|exact H0]. }
    set (s0 := set_trace (trace s ++ [Invoke k]) s).
    destruct (Hg s0) as (evs & Ht & Hw).
    destruct (m s0) as [s1 r]. cbn [fst snd trace set_memoized_calls] in *.
    exists (Invoke k :: evs). rewrite Ht. unfold s0. cbn [trace set_trace].
    rewrite <- app_assoc. split; [reflexivity|]. cbn. lia.
Qed.

Lemma count_not_a_run (k : MemoKey) (evs : list Event) :
  Forall not_a_run evs -> count (is_invoke k) evs = 0%nat.
Proof.
  induction 1 as [|e evs He _ IH]; [reflexivity|].
  unfold count in *. cbn. rewrite (He k). exact IH.
Qed.

(** A step that leaves the cache alone and appends no method run. *)
Lemma sound_prim {A : Type} (w : Event -> Z) (X : gset MemoKey) (n : Z) (m : M A) :
  (forall s, memoized_calls (m s).1 = memoized_calls s /\
     exists evs, trace (m s).1 = trace s ++ evs /\
       Forall not_a_run evs /\ total w evs <= n) ->
  sound w X n m.
Proof.
  intros H. split; [split|].
  - intros s k r Hr. destruct (H s) as (Hc & _). rewrite Hc. exact Hr.
  - intros s Hinv. destruct (H s) as (Hc & evs & Ht & Hev & _).
    assert (Hr : forall k, runs k (m s).1 = runs k s).
    { intros k. unfold runs. rewrite Ht, count_app, (count_not_a_run k evs Hev). lia. }
    split.
    + intros k Hk. rewrite Hr, Hc. apply Hinv, Hk.
    + intros k _. rewrite Hr, Hc. split; reflexivity.
  - intros s. destruct (H s) as (_ & evs & Ht & _ & Hw). exists evs. split; assumption.
Qed.

Ltac fresh_key :=
  repeat (apply not_elem_of_union; split);
  first [assumption | apply not_elem_of_singleton; discriminate].

Section CloseMethods.

(** A weight on events: zero on everything but [onClose] calls, [clean.all()]
    and method runs.  The lemmas ask that a run of a close method pays for
    the calls its own body makes. *)
Variable w : Event -> Z.
Hypothesis w_quiet :
  forall e, match e with OnClose _ | CleanAll | Invoke _ => True | _ => w e = 0 end.
Hypothesis w_invoke : forall k, w (Invoke k) <= 0.
Hypothesis w_onClose : forall r, 0 <= w (OnClose r).
Hypothesis w_cleanAll : 0 <= w CleanAll.

Lemma sound_ret {A : Type} (X : gset MemoKey) (a : A) : sound w X 0 (ret a).
Proof.
  apply sound_prim. intros s. cbn. split; [reflexivity|].
  exists []. rewrite app_nil_r.
  split; [reflexivity|]. split; [constructor|cbn; lia].
Qed.

Lemma sound_emit (X : gset MemoKey) (e : Event) :
  not_a_run e -> sound w X (w e) (emit e).
Proof.
  intros He. apply sound_prim. intros s. cbn. split; [reflexivity|].
  exists [e]. split; [reflexivity|]. split; [repeat constructor; exact He|cbn; lia].
Qed.

Lemma sound_props_onClose (X : gset MemoKey) (r : CloseReason) :
  sound w X (w (OnClose r)) (props_onClose r).
Proof.
  apply sound_prim. intros s. cbn. split; [reflexivity|].
  exists [OnClose r].
  split; [reflexivity|]. split; [repeat constructor; intros k; reflexivity|cbn; lia].
Qed.

Lemma ran_quiet (ts : list Task) : Forall not_a_run (ran ts) /\ total w (ran ts) = 0.
Proof.
  unfold ran.
  induction ts as [|t ts [IH1 IH2]]; cbn; [split; [constructor|reflexivity]|].
  split; [constructor; [intros k; reflexivity|exact IH1]|].
  rewrite IH2. pose proof (w_quiet (Ran t.2)) as H. cbn in H. lia.
Qed.

Lemma sound_run (X : gset MemoKey) (tag : string) : sound w X 0 (Cleanup.run tag).
Proof.
  apply sound_prim. intros s. unfold Cleanup.run.
  match goal with |- context [Cleanup.run_tasks ?l ?s0] =>
    pose proof (run_tasks_frame l s0) as H; cbn zeta in H;
    destruct H as (_ & _ & Hm & _ & _ & _ & _ & _ & _ & Ht);
    rewrite Hm, Ht; cbn [memoized_calls trace set_clean];
    destruct (ran_quiet l) as [Hq Hz] end.
  split; [reflexivity|]. eexists. split; [reflexivity|]. split; [exact Hq|lia].
Qed.

Lemma sound_destroy (X : gset MemoKey) : sound w X (w CleanAll) destroy.
Proof.
  apply sound_prim. intros s.
  destruct (destroy_frame s) as (_ & _ & Hm & _ & _ & _ & _ & _ & _ & Ht).
  rewrite Hm, Ht. split; [reflexivity|].
  exists (destroy_events s). split; [reflexivity|].
  unfold destroy_events. destruct (Cleanup.hasTasks s).
  - destruct (ran_quiet (clean s)) as [Hq Hz]. split.
    + repeat constructor; try (intros k; reflexivity). exact Hq.
    + cbn. rewrite Hz. pose proof (w_quiet (Log "destroy")) as H. cbn in H. lia.
  - split; [constructor|cbn; lia].
Qed.

Lemma sound_animateAndHide (X : gset MemoKey) (el : Elem) (a : Animation) :
  sound w X 0 (animateAndHide el a).
Proof.
  apply sound_prim. intros s. unfold animateAndHide.
  destruct (animate (helpers s) el a) as [tds r]. cbn. split; [reflexivity|].
  pose proof (w_quiet (AnimateAndHide el a)) as H. cbn in H.
  exists [AnimateAndHide el a].
  split; [reflexivity|]. split; [repeat constructor; intros k; reflexivity|cbn; lia].
Qed.

Lemma sound_close_child (X : gset MemoKey) : sound w X 0 close_child.
Proof.
  apply sound_prim. intros s. unfold close_child.
  pose proof (w_quiet ChildClose) as H. cbn in H.
  destruct (childExports s); [destruct (is_popup (context s))|]; cbn;
    (split; [reflexivity|]).
  - exists [ChildClose].
    split; [reflexivity|]. split; [repeat constructor; intros k; reflexivity|cbn; lia].
  - exists []. rewrite app_nil_r.
    split; [reflexivity|]. split; [constructor|cbn; lia].
  - exists []. rewrite app_nil_r.
    split; [reflexivity|]. split; [constructor|cbn; lia].
Qed.

Lemma sound_triggerOnce (X : gset MemoKey) (ev : EventName) : sound w X 0 (triggerOnce ev).
Proof.
  pose proof (w_quiet (TriggerOnce ev)) as H. cbn in H. rewrite <- H.
  apply sound_emit. intros k. reflexivity.
Qed.

Lemma sound_log (X : gset MemoKey) (n : string) : sound w X 0 (log n).
Proof.
  pose proof (w_quiet (Log n)) as H. cbn in H. rewrite <- H.
  apply sound_emit. intros k. reflexivity.
Qed.

Lemma sound_hideComponent (X : gset MemoKey) :
  ("hideComponent", None) ∉ X -> sound w X 0 hideComponent.
Proof.
  intros HX. unfold hideComponent.
  apply (sound_memoized w X 0 0);
    [exact HX| |pose proof (w_invoke ("hideComponent", None)); lia|lia].
  apply sound_pointwise. intros s. destruct (element s) as [el|].
  - exists (animateAndHide el ANIMATION_HIDE_COMPONENT). split; [apply sound_animateAndHide|reflexivity].
  - exists (ret tt). split; [apply sound_ret|reflexivity].
Qed.

Lemma sound_hideContainer (X : gset MemoKey) :
  ("hideContainer", None) ∉ X -> sound w X 0 hideContainer.
Proof.
  intros HX. unfold hideContainer.
  apply (sound_memoized w X 0 0);
    [exact HX| |pose proof (w_invoke ("hideContainer", None)); lia|lia].
  apply sound_pointwise. intros s. destruct (container s) as [el|].
  - exists (animateAndHide el ANIMATION_HIDE_CONTAINER). split; [apply sound_animateAndHide|reflexivity].
  - exists (ret tt). split; [apply sound_ret|reflexivity].
Qed.

Lemma sound_then {A B : Type} (X : gset MemoKey) (n1 n2 n : Z) (p : M A) (q : M B) :
  sound w X n1 p -> sound w X n2 q -> 0 <= n2 -> n1 + n2 <= n ->
  sound w X n (p >> q).
Proof.
  intros Hp Hq H0 Hn. apply (sound_mono w X (n1 + n2)); [exact Hn|].
  apply sound_bind; [exact Hp|intros _; exact Hq|exact H0].
Qed.

Lemma sound_destroyComponent (X : gset MemoKey) : sound w X 0 destroyComponent.
Proof.
  unfold destroyComponent.
  repeat (eapply (sound_then X 0 0 0); [|apply sound_run|lia|lia]).
  apply sound_run.
Qed.

Lemma sound_destroyContainer (X : gset MemoKey) :
  ("destroyContainer", None) ∉ X -> sound w X 0 destroyContainer.
Proof.
  intros HX. unfold destroyContainer.
  apply (sound_memoized w X 0 0);
    [exact HX| |pose proof (w_invoke ("destroyContainer", None)); lia|lia].
  eapply (sound_then _ 0 0 0); [apply sound_run|apply sound_run|lia|lia].
Qed.

Lemma sound_notify (X : gset MemoKey) (r : CloseReason) :
  sound w X (w (OnClose r)) (triggerOnce EVENTS_CLOSE >> props_onClose r).
Proof.
  eapply (sound_then X 0 _ _); [apply sound_triggerOnce|apply sound_props_onClose|apply w_onClose|lia].
Qed.

Lemma sound_closeComponent (X : gset MemoKey) (r : option CloseReason) :
  ("closeComponent", r) ∉ X -> ("hideComponent", None) ∉ X ->
  w (Invoke ("closeComponent", r)) + w (OnClose (default_reason r)) <= 0 ->
  sound w X 0 (closeComponent r).
Proof.
  intros H1 H2 Hw. unfold closeComponent.
  apply (sound_memoized w X 0 (w (OnClose (default_reason r))));
    [exact H1| |exact Hw|lia].
  unfold cancelContainerEvents.
  eapply (sound_then _ _ 0 _); [|apply sound_close_child|lia|].
  eapply (sound_then _ _ 0 _); [|apply sound_destroyComponent|lia|].
  eapply (sound_then _ _ 0 _); [|apply sound_hideComponent; fresh_key|lia|].
  eapply (sound_then _ 0 _ _); [apply sound_run|apply sound_notify|apply w_onClose|].
  all: try reflexivity. all: lia.
Qed.

Lemma sound_closeContainer (X : gset MemoKey) (r : option CloseReason) :
  ("closeContainer", r) ∉ X ->
  ("closeComponent", Some (default_reason r)) ∉ X ->
  ("hideComponent", None) ∉ X ->
  ("hideContainer", None) ∉ X -> ("destroyContainer", None) ∉ X ->
  w (Invoke ("closeComponent", Some (default_reason r))) + w (OnClose (default_reason r)) <= 0 ->
  w (Invoke ("closeContainer", r)) + w (OnClose (default_reason r)) <= 0 ->
  sound w X 0 (closeContainer r).
Proof.
  intros H1 H2 H3 H4 H5 Hw1 Hw2. unfold closeContainer.
  apply (sound_memoized w X 0 (w (OnClose (default_reason r))));
    [exact H1| |exact Hw2|lia].
  eapply (sound_then _ _ 0 _); [|apply sound_destroyContainer; fresh_key|lia|].
  eapply (sound_then _ _ (0 + 0) _);
    [apply sound_notify
    |apply sound_all2; [apply sound_closeComponent; [fresh_key|fresh_key|exact Hw1]
                       |apply sound_hideContainer; fresh_key]
    |lia|].
  all: try reflexivity. all: lia.
Qed.

(** [close] pays for its own [onClose] call; the [clean.all()] of its
    [destroy] goes to the bound. *)
Lemma sound_close (X : gset MemoKey) (r : option CloseReason) :
  ("close", r) ∉ X ->
  ("closeContainer", None) ∉ X -> ("closeComponent", None) ∉ X ->
  ("closeComponent", Some PARENT_CALL) ∉ X ->
  ("hideComponent", None) ∉ X -> ("hideContainer", None) ∉ X ->
  ("destroyContainer", None) ∉ X ->
  w (Invoke ("closeComponent", None)) + w (OnClose PARENT_CALL) <= 0 ->
  w (Invoke ("closeComponent", Some PARENT_CALL)) + w (OnClose PARENT_CALL) <= 0 ->
  w (Invoke ("closeContainer", None)) + w (OnClose PARENT_CALL) <= 0 ->
  w (Invoke ("close", r)) + w (OnClose (default_reason r)) <= 0 ->
  sound w X (w CleanAll) (close r).
Proof.
  intros H0 H1 H2 H2' H3 H4 H5 Hw1 Hw1' Hw2 Hw3. unfold close.
  apply (sound_memoized w X _ (w (OnClose (default_reason r)) + w CleanAll));
    [exact H0| |lia|exact w_cleanAll].
  eapply (sound_then _ _ _ _); [|apply sound_destroy|apply w_cleanAll|].
  eapply (sound_then _ _ (0 + 0) _);
    [|apply sound_all2;
       [apply sound_closeComponent; [fresh_key|fresh_key|exact Hw1]
       |apply sound_closeContainer; [fresh_key|fresh_key|fresh_key|fresh_key|fresh_key
                                    |exact Hw1'|exact Hw2]]
     |lia|].
  eapply (sound_then _ _ _ _); [|apply sound_props_onClose|apply w_onClose|].
  eapply (sound_then _ 0 0 _); [apply sound_log|apply sound_triggerOnce|lia|].
  all: try reflexivity. all: lia.
Qed.

Section AnyCallSite.

Hypothesis w_closeComponent :
  forall a r, w (Invoke ("closeComponent", a)) + w (OnClose r) <= 0.
Hypothesis w_closeContainer :
  forall a r, w (Invoke ("closeContainer", a)) + w (OnClose r) <= 0.
Hypothesis w_close : forall a r, w (Invoke ("close", a)) + w (OnClose r) <= 0.




End AnyCallSite.

End CloseMethods.

(** ** close *)

Ltac weigh :=
  unfold no_weight;
  first [ apply not_elem_of_empty
        | intros []; cbn; first [exact I | lia]
        | intros [m a]; cbn; repeat destruct (String.eqb _ _); lia
        | intros; cbn; repeat destruct (String.eqb _ _); lia ].










(** ** Close reasons *)

Lemma total_other_reason (t : list Event) :
  total other_reason_weight t <= 0 ->
  Forall (fun r => r = PARENT_CALL) (close_reasons t).
Proof.
  assert (Hnn : forall u, 0 <= total other_reason_weight u).
  { induction u as [|e u IH]; cbn; [lia|]. destruct e as [| | |[]| | | | | | | | | | | | |]; cbn; lia. }
  induction t as [|e t IH]; cbn; [constructor|].
  intros H. pose proof (Hnn t) as Ht.
  destruct e as [| | |[]| | | | | | | | | | | | |]; cbn in *;
    try (apply IH; lia); try lia.
  constructor; [reflexivity|apply IH; lia].
Qed.

(** What follows the first [onClose] call of [close]: whatever it appends
    hands [PARENT_CALL] to [onClose]. *)
Lemma rest_of_close_appends (s : Parent) :
  exists evs,
    trace ((all2 (closeComponent None) (closeContainer None) >> destroy) s).1
      = trace s ++ evs /\
    Forall (fun r => r = PARENT_CALL) (close_reasons evs).
Proof.
  assert (H : sound other_reason_weight ∅ 0
                (all2 (closeComponent None) (closeContainer None) >> destroy)).
  { eapply sound_then with (n1 := 0 + 0) (n2 := 0); [| |lia|lia].
    - apply sound_all2.
      + apply sound_closeComponent; weigh.
      + apply sound_closeContainer; weigh.
    - apply (sound_destroy other_reason_weight); weigh. }
  destruct H as [_ Hg]. destruct (Hg s) as (evs & Ht & Hw). exists evs.
  split; [exact Ht|]. apply total_other_reason, Hw.
Qed.

Lemma close_appends (r : option CloseReason) (s : Parent) :
  exists evs, trace (close r s).1 = trace s ++ evs.
Proof.
  assert (H : sound no_weight ∅ 0 (close r)) by (apply sound_close; weigh).
  destruct H as [_ Hg]. destruct (Hg s) as (evs & Ht & _). exists evs. exact Ht.
Qed.

Lemma bind_assoc {A B C} (m : M A) (f : A -> M B) (g : B -> M C) (s : Parent) :
  ((m >>= f) >>= g) s = (m >>= (fun a => f a >>= g)) s.
Proof. unfold bind. destruct (m s) as [s1 [a|e]]; reflexivity. Qed.

Lemma close_notifies (r : CloseReason) (s : Parent) :
  (log "close" >> triggerOnce EVENTS_CLOSE >> props_onClose r) s =
    (set_trace (trace s ++ [Log "close"; TriggerOnce EVENTS_CLOSE; OnClose r]) s,
     onClose (props s) r).
Proof.
  unfold bind, log, triggerOnce, emit, props_onClose, set_trace. cbn.
  rewrite <- !app_assoc. reflexivity.
Qed.

(** A first [close(reason)] hands [reason] to [onClose], and [PARENT_CALL]
    in every call after that one. *)
Lemma close_first_reason (r : option CloseReason) (s : Parent) :
  memoized_calls s !! ("close", r) = None ->
  exists rest,
    trace (close r s).1 =
      trace s ++ [Invoke ("close", r); Log "close"; TriggerOnce EVENTS_CLOSE;
                  OnClose (default_reason r)] ++ rest /\
    Forall (fun r => r = PARENT_CALL) (close_reasons rest).
Proof.
  intros Hm. unfold close, memoized. rewrite Hm.
  set (s0 := set_trace (trace s ++ [Invoke ("close", r)]) s).
  rewrite bind_assoc. unfold bind at 1. rewrite close_notifies.
  destruct (onClose (props s0) (default_reason r)) as [[]|e].
  - match goal with |- context [bind ?m ?f ?s1] =>
      destruct (rest_of_close_appends s1) as (evs & Hev & Hpc);
      destruct (bind m f s1) as [s2 r2] end.
    cbn [fst snd trace set_memoized_calls set_trace] in *.
    exists evs. split; [|exact Hpc]. rewrite Hev. unfold s0. cbn [trace set_trace].
    rewrite <- !app_assoc. reflexivity.
  - unfold s0. cbn. exists []. split; [|constructor]. rewrite <- !app_assoc. reflexivity.
Qed.

(** ** Close check *)

Lemma userClose_trace (s : Parent) :
  exists rest, trace (userClose s).1 = trace s ++ Invoke ("userClose", None) :: rest.
Proof.
  unfold userClose, bind, emit.
  destruct (close_appends (Some USER_CLOSED)
              (set_trace (trace s ++ [Invoke ("userClose", None)]) s))
    as (evs & Hev).
  exists evs. rewrite Hev. cbn [trace set_trace]. rewrite <- app_assoc. reflexivity.
Qed.

(** What [checkClose] does, by the answers of the two polls. *)
Lemma checkClose_unfold (win : ProxyWindow) (s : Parent) :
  checkClose win s =
    match isClosed win (now s) with
    | Resolved true => userClose (observe [IsClosed (now s) true] s)
    | Resolved false =>
        let waited := set_now (now s + 200)
                        (observe [IsClosed (now s) false; Delay 200] s) in
        match isClosed win (now s + 200) with
        | Resolved true => userClose (observe [IsClosed (now s + 200) true] waited)
        | Resolved false => (observe [IsClosed (now s + 200) false] waited, Resolved tt)
        | Rejected e => (waited, Rejected e)
        end
    | Rejected e => (s, Rejected e)
    end.
Proof.
  unfold checkClose, bind at 1, win_isClosed at 1.
  destruct (isClosed win (now s)) as [[|]|e]; [reflexivity| |reflexivity].
  unfold bind, delay, win_isClosed, observe. cbn [now set_now set_trace trace fst snd].
  destruct (isClosed win (now s + 200)) as [[|]|e];
    unfold set_trace, set_now; cbn; rewrite <- ?app_assoc; reflexivity.
Qed.

(** C3, as stated, fails: a window reported open by the first poll and
    closed by the second one triggers the user close. *)
Lemma checkClose_second_poll_suffices :
  ~ (user_close_triggered (closing_window 200) login_instance ->
     both_checks_closed (closing_window 200) login_instance).
Proof.
  intros H. assert (Ht : user_close_triggered (closing_window 200) login_instance).
  { unfold user_close_triggered. vm_compute.
    do 3 (apply elem_of_cons; right). apply elem_of_cons. left. reflexivity. }
  destruct (H Ht) as [H1 _]. discriminate H1.
Qed.

(** C3, amended: [checkClose] polls [isClosed] at once; a closed answer
    triggers the user close with no second poll; an open answer is followed
    by a wait of exactly 200ms and one more poll, whose closed answer
    triggers the user close.  So the user close is triggered exactly when
    the first poll, or else the second, reports the window closed. *)
Theorem checkClose_two_phase (win : ProxyWindow) (s : Parent) :
  (isClosed win (now s) = Resolved true ->
     checkClose win s = userClose (observe [IsClosed (now s) true] s)) /\
  (isClosed win (now s) = Resolved false ->
     exists rest,
       appended (checkClose win) s = IsClosed (now s) false :: Delay 200 :: rest /\
       match isClosed win (now s + 200) with
       | Resolved b => head rest = Some (IsClosed (now s + 200) b)
       | Rejected e => rest = []
       end) /\
  (user_close_triggered win s <->
     isClosed win (now s) = Resolved true \/
     (isClosed win (now s) = Resolved false /\
      isClosed win (now s + 200) = Resolved true)).
Proof.
  rewrite (checkClose_unfold win s). unfold user_close_triggered, appended.
  rewrite (checkClose_unfold win s).
  destruct (isClosed win (now s)) as [[|]|e] eqn:H1.
  - split; [reflexivity|]. split; [discriminate|].
    destruct (userClose_trace (observe [IsClosed (now s) true] s)) as (rest & Hr).
    rewrite Hr. cbn [observe trace set_trace]. rewrite <- app_assoc, drop_app_length.
    split; [intros _; left; reflexivity|]. intros _.
    apply elem_of_cons. right. apply elem_of_cons. left. reflexivity.
  - split; [discriminate|].
    destruct (isClosed win (now s + 200)) as [[|]|e] eqn:H2; cbn zeta.
    + match goal with |- context [userClose ?s0] =>
        destruct (userClose_trace s0) as (rest & Hr) end.
      rewrite Hr. cbn [observe trace set_trace set_now].
      rewrite <- !app_assoc, drop_app_length. cbn [app]. split.
      * intros _. eexists. split; reflexivity.
      * split; [intros _; right; split; reflexivity|]. intros _.
        do 3 (apply elem_of_cons; right). apply elem_of_cons. left. reflexivity.
    + cbn [observe trace set_trace set_now fst].
      rewrite <- !app_assoc, drop_app_length. cbn [app]. split.
      * intros _. eexists. split; reflexivity.
      * split; [|intros [H|[_ H]]; discriminate H]. intros H.
        repeat (apply elem_of_cons in H as [H|H]; [discriminate H|]).
        apply elem_of_nil in H. contradiction.
    + cbn [observe trace set_trace set_now fst].
      rewrite drop_app_length. split.
      * intros _. eexists. split; reflexivity.
      * split; [|intros [H|[_ H]]; discriminate H]. intros H.
        repeat (apply elem_of_cons in H as [H|H]; [discriminate H|]).
        apply elem_of_nil in H. contradiction.
  - split; [discriminate|]. split; [discriminate|].
    cbn [fst]. rewrite drop_all.
    split; [|intros [H|[H _]]; discriminate H]. intros H.
    apply elem_of_nil in H. contradiction.
Qed.

(** C9: [close()] without a reason hands [PARENT_CALL] to every [onClose]
    call it makes, directly and through its internal close steps.
    [userClose()] is [close(USER_CLOSED)], and it is what a closed window
    detected by [checkClose] and the template's close action lead to: it
    hands [USER_CLOSED] to [onClose] first, and [PARENT_CALL] in the calls
    of the internal close steps.  So the first reason [onClose] receives is
    [USER_CLOSED] for a user close and [PARENT_CALL] for a host close, which
    are different. *)
Theorem close_reason_delivered (s : Parent) :
  memoized_calls s !! ("close", None) = None ->
  memoized_calls s !! ("close", Some USER_CLOSED) = None ->
  (exists evs, trace (close None s).1 = trace s ++ evs /\
     head (close_reasons evs) = Some PARENT_CALL /\
     Forall (fun r => r = PARENT_CALL) (close_reasons evs)) /\
  userClose s = close (Some USER_CLOSED) (observe [Invoke ("userClose", None)] s) /\
  (exists evs, trace (userClose s).1 = trace s ++ evs /\
     head (close_reasons evs) = Some USER_CLOSED /\
     Forall (fun r => r = PARENT_CALL) (tail (close_reasons evs))) /\
  (forall win, isClosed win (now s) = Resolved true ->
     checkClose win s = userClose (observe [IsClosed (now s) true] s)) /\
  template_close s = userClose s /\
  USER_CLOSED <> PARENT_CALL.
Proof.
  intros Hm Hu. split; [|split; [|split; [|split; [|split]]]].
  - destruct (close_first_reason None s Hm) as (rest & Hr & Hpc).
    eexists. split; [exact Hr|]. split; [reflexivity|].
    cbn. constructor; [reflexivity|exact Hpc].
  - reflexivity.
  - change (userClose s) with
      (close (Some USER_CLOSED) (set_trace (trace s ++ [Invoke ("userClose", None)]) s)).
    destruct (close_first_reason (Some USER_CLOSED)
                (set_trace (trace s ++ [Invoke ("userClose", None)]) s) Hu)
      as (rest & Hr & Hpc).
    eexists. split.
    + rewrite Hr. cbn [trace set_trace]. rewrite <- app_assoc. reflexivity.
    + split; [reflexivity|]. exact Hpc.
  - intros win Hc. rewrite checkClose_unfold, Hc. reflexivity.
  - reflexivity.
  - discriminate.
Qed.

Lemma close_reason_delivered_witness :
  Forall (fun r => r = PARENT_CALL) (close_reasons (trace (close None login_instance).1)) /\
  head (close_reasons (trace (userClose login_instance).1)) = Some USER_CLOSED /\
  close_reasons (trace (close None login_instance).1)
    = [PARENT_CALL; PARENT_CALL; PARENT_CALL; PARENT_CALL] /\
  close_reasons (trace (userClose login_instance).1)
    = [USER_CLOSED; PARENT_CALL; PARENT_CALL; PARENT_CALL].
Proof.
  destruct (close_reason_delivered login_instance eq_refl eq_refl)
    as ((host & Hhost & _ & Hall) & _ & (user & Huser & Hfirst & _) & _).
  cbn [trace login_instance constructed blank app] in Hhost, Huser.
  split; [rewrite Hhost; exact Hall|]. split; [rewrite Huser; exact Hfirst|].
  split; vm_compute; reflexivity.
Defined.

(** ** Resize *)

Lemma overflow_written_back (el : Elem) (previous : string) (nodes : list Node) :
  (match nodes !! el with Some n => overflow n | None => "" end) = previous ->
  match alter (with_overflow previous) el (alter (with_overflow "hidden") el nodes) !! el
  with Some n => overflow n | None => "" end = previous.
Proof.
  intros H. destruct (nodes !! el) as [n|] eqn:Hn.
  - rewrite !list_lookup_alter_eq, Hn. reflexivity.
  - rewrite !list_lookup_alter_eq, Hn. exact H.
Qed.

(** C8: with [waitForTransition: false], [resize] ends with the driver's
    resize, whatever the transition signal does.  With [waitForTransition]
    true, and also when it is left out, on an instance with an element,
    once the driver's resize has gone through [resize] sets the overflow
    of the element to hidden and awaits the stopped-moving signal: it
    resolves exactly when that signal fires, after it, with the overflow
    written back; as long as the signal has not fired the overflow is
    hidden. *)
Theorem resize_waits_for_transition
  (width height : option Z) (s : Parent) (el : Elem) (n : Node) :
  element s = Some el ->
  document s !! el = Some n ->
  driver_resize (driver s) width height = Resolved tt ->
  (forall s', resize width height (Some false) s' =
     (observe [Log "resize"; DriverResize width height] s',
      driver_resize (driver s') width height)) /\
  (forall wait, wait = None \/ wait = Some true ->
     (forall e, elementStoppedMoving (helpers s) el = Rejected e ->
        (resize width height wait s).2 = Rejected e /\
        appended (resize width height wait) s =
          [Log "resize"; DriverResize width height; SetOverflow el "hidden"] /\
        overflow_of el (resize width height wait s).1 = "hidden") /\
     (elementStoppedMoving (helpers s) el = Resolved tt ->
        (resize width height wait s).2 = Resolved tt /\
        appended (resize width height wait) s =
          [Log "resize"; DriverResize width height; SetOverflow el "hidden";
           ElementStoppedMoving el; SetOverflow el (overflow n)] /\
        overflow_of el (resize width height wait s).1 = overflow n) /\
     ((resize width height wait s).2 = Resolved tt ->
        elementStoppedMoving (helpers s) el = Resolved tt)).
Proof.
  intros Hel Hn Hd. split.
  - intros s'. unfold resize, bind, log, emit, call_driver_resize, observe. cbn.
    destruct (driver_resize (driver s') width height) as [[]|e];
      unfold set_trace; cbn; rewrite <- ?app_assoc; reflexivity.
  - intros wait Hw.
    assert (Hdw : default_wait wait = true) by (destruct Hw as [-> | ->]; reflexivity).
    unfold appended, resize, bind, log, emit, call_driver_resize. cbn.
    rewrite Hdw, Hd. cbn. rewrite Hel.
    unfold setOverflow, write_overflow, await_elementStoppedMoving,
      overflow_reset, write_overflow, overflow_of. cbn. rewrite Hn.
    destruct (elementStoppedMoving (helpers s) el) as [[]|e] eqn:Hs; cbn.
    + split; [intros e H; discriminate H|]. split; [|reflexivity].
      intros _. split; [reflexivity|].
      rewrite <- !app_assoc, drop_app_length. split; [reflexivity|].
      apply overflow_written_back. rewrite Hn. reflexivity.
    + split; [|split; intros H; discriminate H].
      intros e' He. injection He as <-. split; [reflexivity|].
      rewrite <- !app_assoc, drop_app_length. split; [reflexivity|].
      rewrite list_lookup_alter_eq, Hn. reflexivity.
Qed.

Lemma resize_waits_for_transition_witness :
  (resize (Some 300) (Some 200) None rendered_instance).2 = Resolved tt /\
  appended (resize (Some 300) (Some 200) None) rendered_instance =
    [Log "resize"; DriverResize (Some 300) (Some 200); SetOverflow 0 "hidden";
     ElementStoppedMoving 0; SetOverflow 0 "auto"] /\
  overflow_of 0 (resize (Some 300) (Some 200) None rendered_instance).1 = "auto".
Proof.
  destruct (resize_waits_for_transition (Some 300) (Some 200) rendered_instance 0%nat
              {| tagName := "div"; classes := [CLASS_NAMES_OUTLET]; overflow := "auto" |}
              eq_refl eq_refl eq_refl) as [_ H].
  destruct (H None (or_introl eq_refl)) as (_ & Hr & _).
  exact (Hr eq_refl).
Defined.

(** ** Outlet *)

Lemma getOutlet_cached (s : Parent) :
  memoized_outlet (getOutlet s).1 = Some (getOutlet s).2.
Proof.
  unfold getOutlet. destruct (memoized_outlet s) eqn:Ho; [exact Ho|reflexivity].
Qed.

Lemma getOutlet_hit (s : Parent) (o : nat) :
  memoized_outlet s = Some o -> getOutlet s = (s, o).
Proof. intros H. unfold getOutlet. rewrite H. reflexivity. Qed.

Lemma getOutlet_appends (s : Parent) :
  exists evs, trace (getOutlet s).1 = trace s ++ evs.
Proof.
  unfold getOutlet. destruct (memoized_outlet s).
  - exists []. rewrite app_nil_r. reflexivity.
  - cbn. eexists. reflexivity.
Qed.

Arguments getOutlet : simpl never.

(** C10: the first [getOutlet()] creates one [div] carrying the outlet
    class; every later call returns that same element and creates nothing.
    The container template is rendered with that element as its outlet, and
    [openContainer] makes it the element the component is rendered into. *)
Theorem getOutlet_memoized :
  (forall s,
     memoized_outlet s = None ->
     (getOutlet s).2 = length (document s) /\
     document (getOutlet s).1 = document s ++ [outlet_node] /\
     tagName outlet_node = "div" /\ classes outlet_node = [CLASS_NAMES_OUTLET]) /\
  (forall s, getOutlet (getOutlet s).1 = ((getOutlet s).1, (getOutlet s).2)) /\
  (forall s el,
     containerTemplate (component s) = true ->
     renderedIntoContainer (driver s) = true ->
     let s' := (openContainer (Some el) s).1 in
     (openContainer (Some el) s).2 = Resolved tt /\
     element s' = Some (getOutlet s).2 /\
     RenderTemplate (getOutlet s).2 ∈ appended (openContainer (Some el)) s /\
     getOutlet s' = (s', (getOutlet s).2)).
Proof.
  split; [|split].
  - intros s Ho. unfold getOutlet. rewrite Ho. cbn. repeat split; reflexivity.
  - intros s. apply getOutlet_hit, getOutlet_cached.
  - intros s el Hc Hr. unfold appended, openContainer. rewrite Hc, Hr. cbn [negb].
    unfold bind, renderTemplate.
    pose proof (getOutlet_cached s) as Ho.
    destruct (getOutlet_appends s) as (evs & Ht).
    destruct (getOutlet s) as [s1 o]. cbn [fst snd] in *.
    unfold createElement, hideElement, appendChild, emit, ret, Cleanup.register.
    cbn [fst snd].
    rewrite (getOutlet_hit _ o) by exact Ho.
    cbn. rewrite Ht.
    split; [reflexivity|]. split; [reflexivity|]. split.
    + rewrite <- !app_assoc, drop_app_length.
      apply elem_of_app. right. apply elem_of_cons. left. reflexivity.
    + apply getOutlet_hit. exact Ho.
Qed.

(** ** Global registries *)

Lemma run_action_props_gone (a : CleanupAction) (uid : nat) (s : Parent) :
  global_props s !! uid = None \/ a = DeleteGlobalProps uid ->
  global_props (Cleanup.run_action a s).1 !! uid = None.
Proof.
  intros [H| ->].
  - destruct a; unfold Cleanup.run_action; cbn; try exact H.
    rewrite lookup_delete_None. right. exact H.
  - unfold Cleanup.run_action. cbn. apply lookup_delete_eq.
Qed.

Lemma run_action_windows_gone (a : CleanupAction) (uid : nat) (s : Parent) :
  global_windows s !! uid = None \/ a = DeleteGlobalWindow uid ->
  global_windows (Cleanup.run_action a s).1 !! uid = None.
Proof.
  intros [H| ->].
  - destruct a; unfold Cleanup.run_action; cbn; try exact H.
    rewrite lookup_delete_None. right. exact H.
  - unfold Cleanup.run_action. cbn. apply lookup_delete_eq.
Qed.

Lemma run_tasks_props_gone (ts : list Task) (uid : nat) (s : Parent) :
  global_props s !! uid = None \/ (exists tag, (tag, DeleteGlobalProps uid) ∈ ts) ->
  global_props (Cleanup.run_tasks ts s).1 !! uid = None.
Proof.
  revert s. induction ts as [|[tag a] ts IH]; intros s H;
    unfold Cleanup.run_tasks; fold Cleanup.run_tasks.
  - destruct H as [H|[tag H]]; [exact H|]. apply elem_of_nil in H. contradiction.
  - cbn [snd].
    pose proof (run_action_props_gone a uid s) as Ha.
    destruct (Cleanup.run_action a s) as [s1 r1]. cbn [fst] in Ha.
    pose proof (IH s1) as Hs.
    destruct (Cleanup.run_tasks ts s1) as [s2 r2]. cbn [fst] in *.
    apply Hs. destruct H as [H|[tag' H]].
    + left. apply Ha. left. exact H.
    + apply elem_of_cons in H as [H|H].
      * left. apply Ha. right. congruence.
      * right. exists tag'. exact H.
Qed.

Lemma run_tasks_windows_gone (ts : list Task) (uid : nat) (s : Parent) :
  global_windows s !! uid = None \/ (exists tag, (tag, DeleteGlobalWindow uid) ∈ ts) ->
  global_windows (Cleanup.run_tasks ts s).1 !! uid = None.
Proof.
  revert s. induction ts as [|[tag a] ts IH]; intros s H;
    unfold Cleanup.run_tasks; fold Cleanup.run_tasks.
  - destruct H as [H|[tag H]]; [exact H|]. apply elem_of_nil in H. contradiction.
  - cbn [snd].
    pose proof (run_action_windows_gone a uid s) as Ha.
    destruct (Cleanup.run_action a s) as [s1 r1]. cbn [fst] in Ha.
    pose proof (IH s1) as Hs.
    destruct (Cleanup.run_tasks ts s1) as [s2 r2]. cbn [fst] in *.
    apply Hs. destruct H as [H|[tag' H]].
    + left. apply Ha. left. exact H.
    + apply elem_of_cons in H as [H|H].
      * left. apply Ha. right. congruence.
      * right. exists tag'. exact H.
Qed.

(** A registry entry that is not there, or whose delete is registered, is
    not there after [destroy]. *)
Lemma destroy_deletes (s : Parent) (uid : nat) :
  (global_props s !! uid = None \/ (exists tag, (tag, DeleteGlobalProps uid) ∈ clean s) ->
     global_props (destroy s).1 !! uid = None) /\
  (global_windows s !! uid = None \/ (exists tag, (tag, DeleteGlobalWindow uid) ∈ clean s) ->
     global_windows (destroy s).1 !! uid = None).
Proof.
  unfold destroy, Cleanup.hasTasks.
  destruct (clean s) as [|t ts] eqn:Hc.
  - split; (intros [H|[tag H]]; [exact H|apply elem_of_nil in H; contradiction]).
  - unfold bind, log, emit, Cleanup.all. cbn [fst snd trace set_trace clean]. rewrite Hc.
    split; intros H.
    + apply run_tasks_props_gone. exact H.
    + apply run_tasks_windows_gone. exact H.
Qed.

(** The same after [error], on an instance that has not errored yet. *)
Lemma error_deletes (err : Err) (p : Props) (s : Parent) (uid : nat) :
  errored s = false ->
  (global_props s !! uid = None \/ (exists tag, (tag, DeleteGlobalProps uid) ∈ clean s) ->
     global_props (error err p s).1 !! uid = None) /\
  (global_windows s !! uid = None \/ (exists tag, (tag, DeleteGlobalWindow uid) ∈ clean s) ->
     global_windows (error err p s).1 !! uid = None).
Proof.
  intros He. rewrite (error_unfold err p s He).
  pose proof (destroy_deletes (error_started err s) uid) as [Hp Hw].
  destruct (destroy (error_started err s)) as [sd rd]. cbn [fst] in *.
  split; intros H.
  - specialize (Hp H). destruct rd as [[]|e]; [destruct (onError p)|]; exact Hp.
  - specialize (Hw H). destruct rd as [[]|e]; [destruct (onError p)|]; exact Hw.
Qed.

(** What [buildChildWindowName] writes to the global registries, and the
    deletes it registers. *)
Lemma buildChildWindowName_writes (domain : string) (target : Window) (s : Parent) :
  let built := (buildChildWindowName domain target s).1 in
  let payload := (buildChildWindowName domain target s).2 in
  errored built = errored s /\
  (isSameDomain target s = false ->
     payload_props payload = UID (payload_uid payload) /\
     global_props built !! payload_uid payload
       = Some (serializeMessage (helpers s) domain PropsForChild)) /\
  (isSameDomain target s = true -> exists raw, payload_props payload = RAW raw) /\
  (is_popup (context s) = false -> same_window target (window s) = false ->
     exists uid, payload_componentParent payload = GLOBAL uid /\
                 global_windows built !! uid = Some (window s)) /\
  (forall k, global_props s !! k = None ->
     global_props built !! k = None \/
     exists tag, (tag, DeleteGlobalProps k) ∈ clean built) /\
  (forall k, global_windows s !! k = None ->
     global_windows built !! k = None \/
     exists tag, (tag, DeleteGlobalWindow k) ∈ clean built).
Proof.
  cbn zeta.
  unfold buildChildWindowName, getComponentParentRef, uniqueID, isSameDomain,
    Cleanup.register.
  cbn [window set_next_uid context next_uid helpers].
  destruct (is_popup (context s)); [|destruct (same_window target (window s))];
    [| destruct (isTop (window s)) |];
    cbn;
    match goal with |- context [if ?b then RAW _ else _] => destruct b end;
    cbn;
    (split; [reflexivity|]);
    (split; [first [intros H; discriminate H
                   | intros _; split; [reflexivity|apply lookup_insert_eq]]|]);
    (split; [first [intros H; discriminate H | intros _; eexists; reflexivity]|]);
    (split; [first [intros H; discriminate H
                   | intros _ H; discriminate H
                   | intros _ _; eexists; split; [reflexivity|apply lookup_insert_eq]]|]);
    split; intros k Hk;
    first [ left; exact Hk
          | destruct (decide (k = next_uid s)) as [->|Hne];
            [right; exists None; rewrite !elem_of_app, !elem_of_cons; auto 10
            |left; rewrite lookup_insert_ne by congruence; exact Hk]
          | destruct (decide (k = S (next_uid s))) as [->|Hne];
            [right; exists None; rewrite !elem_of_app, !elem_of_cons; auto 10
            |left; rewrite lookup_insert_ne by congruence; exact Hk] ].
Qed.

(** C6: on the UID path, which is taken for a target on another origin,
    [buildChildWindowName] writes the serialized props to the global props
    registry under the payload's uid, and, for a target other than the
    current window outside the popup context, the current window to the
    global windows registry under the uid of the parent reference.  Each
    write comes with a registered teardown deleting that entry: whatever
    was absent from the two registries before is absent again after
    [destroy()], and after [error()] on an instance that had not errored. *)
Theorem registry_entries_deleted (domain : string) (target : Window) (s : Parent) :
  let built := (buildChildWindowName domain target s).1 in
  let payload := (buildChildWindowName domain target s).2 in
  (isSameDomain target s = false ->
     payload_props payload = UID (payload_uid payload) /\
     global_props built !! payload_uid payload
       = Some (serializeMessage (helpers s) domain PropsForChild)) /\
  (is_popup (context s) = false -> same_window target (window s) = false ->
     exists uid, payload_componentParent payload = GLOBAL uid /\
                 global_windows built !! uid = Some (window s)) /\
  (forall k, global_props s !! k = None -> global_props (destroy built).1 !! k = None) /\
  (forall k, global_windows s !! k = None -> global_windows (destroy built).1 !! k = None) /\
  (forall err p k, errored s = false ->
     (global_props s !! k = None -> global_props (error err p built).1 !! k = None) /\
     (global_windows s !! k = None -> global_windows (error err p built).1 !! k = None)).
Proof.
  cbn zeta.
  destruct (buildChildWindowName_writes domain target s) as (He & Hp & _ & Hw & Hkp & Hkw).
  cbn zeta in *.
  split; [exact Hp|]. split; [exact Hw|]. split; [|split].
  - intros k Hk. apply destroy_deletes. apply Hkp, Hk.
  - intros k Hk. apply destroy_deletes. apply Hkw, Hk.
  - intros err p k Hs. rewrite <- He in Hs. split; intros Hk.
    + apply error_deletes; [exact Hs|]. apply Hkp, Hk.
    + apply error_deletes; [exact Hs|]. apply Hkw, Hk.
Qed.

Lemma registry_entries_deleted_witness :
  let built := (buildChildWindowName "https://partner.example" partner_window
                  login_instance).1 in
  global_props built !! 0%nat = Some "https://partner.example" /\
  global_windows built !! 1%nat = Some shop_window /\
  global_props (destroy built).1 !! 0%nat = None /\
  global_windows (destroy built).1 !! 1%nat = None.
Proof.
  cbn zeta.
  destruct (registry_entries_deleted "https://partner.example" partner_window login_instance)
    as (Hp & Hw & Hdp & Hdw & _).
  cbn zeta in *.
  split; [exact (proj2 (Hp eq_refl))|].
  split; [reflexivity|].
  split; [apply Hdp; reflexivity|apply Hdw; reflexivity].
Defined.

(** ** Remote render *)

(** [tryInit] of a method that throws while [onInit] is pending, on an
    instance that has not errored: the constructor's handler runs
    [error], and nothing else happens. *)
Lemma tryInit_throw_pending (err : Err) (s : Parent) :
  onInit s = Some Pending ->
  errored s = false ->
  let out := tryInit (throw err) s in
  out.2 = Failed err /\
  errored out.1 = true /\
  onInit out.1 = Some (Failed err) /\
  clean out.1 = [] /\
  trace out.1 =
    trace s ++ destroy_events s ++
    match onError (constructor_props s) with Some _ => [OnError err] | None => [] end.
Proof.
  intros Ho He. cbn zeta. unfold tryInit, throw. rewrite Ho. cbn [fst snd].
  set (s2 := set_onInit (Some (Failed err)) s).
  assert (He2 : errored s2 = false) by exact He.
  split; [reflexivity|]. split; [apply error_sets_flag|].
  split; [rewrite (error_onInit err _ s2 He2); reflexivity|].
  exact (error_trace_clean err (constructor_props s) s2 He2).
Qed.

(** C7, as stated, fails: the target is on another origin, which does not
    match the component's domain, yet the component's domain matches the
    current origin, so nothing is thrown and the render goes ahead. *)
Lemma renderTo_accepts_own_domain :
  ~ foreign_target_refused render_ok delegate_ok partner_window login_instance.
Proof.
  intros H. specialize (H eq_refl _ eq_refl eq_refl). vm_compute in H. discriminate H.
Qed.

(** C7, amended: [renderTo] to a window under another top-level window
    throws before [delegate] and [render] are reached, so before any
    window is opened: whatever [render] and [delegate] are, it does what
    [tryInit] does of a method that throws at once.  On an instance that is
    waiting for its child this rejects [onInit] and, through the
    constructor's handler, runs the error handling; nothing else happens.
    [renderTo] to a cross-origin window under the same top throws in the
    same way when the component's resolved domain does not match the
    origin of the current window, with a message naming that domain and
    that origin; when it does match, nothing is thrown, whatever the
    origin of the target. *)
Theorem renderTo_remote_guard
  (render : option ElementArg -> Window -> M unit) (delegate : Window -> M unit)
  (target : Window) (element : option ElementArg) (s : Parent) :
  (same_window target (window s) = false ->
   isSameTopWindow (window s) target = false ->
   let err :=
     match element with
     | Some (NotAString ty text) =>
         Error ("Element passed to renderTo must be a string selector, got "
                  +:+ ty +:+ " " +:+ text)
     | _ => Error "Can only renderTo an adjacent frame"
     end in
   let out := renderTo render delegate (Some target) element s in
   checkAllowRemoteRender (Some target) s =
     Rejected (Error "Can only renderTo an adjacent frame") /\
   out = tryInit (throw err) s /\
   (onInit s = Some Pending -> errored s = false ->
      out.2 = Failed err /\
      errored out.1 = true /\
      trace out.1 =
        trace s ++ destroy_events s ++
        match onError (constructor_props s) with
        | Some _ => [OnError err]
        | None => []
        end)) /\
  (forall selector domain,
     element = option_map Selector selector ->
     same_window target (window s) = false ->
     isSameTopWindow (window s) target = true ->
     isSameDomain target s = false ->
     resolved_domain s = Some domain ->
     let out := renderTo render delegate (Some target) element s in
     (matchDomain (helpers s) domain (win_origin (window s)) = false ->
        let err := Error ("Can not render remotely to " +:+ domain +:+
                          " - can only render to " +:+ win_origin (window s)) in
        out = tryInit (throw err) s /\
        (onInit s = Some Pending -> errored s = false ->
           out.2 = Failed err /\
           errored out.1 = true /\
           trace out.1 =
             trace s ++ destroy_events s ++
             match onError (constructor_props s) with
             | Some _ => [OnError err]
             | None => []
             end)) /\
     (matchDomain (helpers s) domain (win_origin (window s)) = true ->
        checkAllowRemoteRender (Some target) s = Resolved tt /\
        out =
          tryInit (log ("render_" +:+ context_name (context s) +:+ "_to_win") >>
                   delegate target >> render element target) s)).
Proof.
  assert (Hpending : forall err,
            renderTo render delegate (Some target) element s = tryInit (throw err) s ->
            onInit s = Some Pending -> errored s = false ->
            (renderTo render delegate (Some target) element s).2 = Failed err /\
            errored (renderTo render delegate (Some target) element s).1 = true /\
            trace (renderTo render delegate (Some target) element s).1 =
              trace s ++ destroy_events s ++
              match onError (constructor_props s) with
              | Some _ => [OnError err]
              | None => []
              end).
  { intros err H Ho He. rewrite H.
    destruct (tryInit_throw_pending err s Ho He) as (H1 & H2 & _ & _ & H3).
    split; [exact H1|]. split; [exact H2|exact H3]. }
  split.
  - intros Hw Ht. cbn zeta.
    assert (Hc : checkAllowRemoteRender (Some target) s =
                 Rejected (Error "Can only renderTo an adjacent frame")).
    { unfold checkAllowRemoteRender. rewrite Ht. reflexivity. }
    split; [exact Hc|].
    match goal with |- ?out = tryInit (throw ?err) s /\ _ =>
      assert (H : out = tryInit (throw err) s) end.
    { unfold renderTo, tryInit, renderTo_method. rewrite Hw.
      destruct element as [[sel|ty text]|]; rewrite ?Hc; reflexivity. }
    split; [exact H|]. apply Hpending, H.
  - intros selector domain Hel Hw Ht Hd Hr. cbn zeta. split.
    + intros Hm.
      assert (Hc : checkAllowRemoteRender (Some target) s =
                   Rejected (Error ("Can not render remotely to " +:+ domain +:+
                                    " - can only render to " +:+ win_origin (window s)))).
      { unfold checkAllowRemoteRender. rewrite Ht, Hd, Hr, Hm. reflexivity. }
      match goal with |- ?out = tryInit (throw ?err) s /\ _ =>
        assert (H : out = tryInit (throw err) s) end.
      { unfold renderTo, tryInit, renderTo_method. rewrite Hw, Hc, Hel.
        destruct selector; reflexivity. }
      split; [exact H|]. apply Hpending, H.
    + intros Hm.
      assert (Hc : checkAllowRemoteRender (Some target) s = Resolved tt).
      { unfold checkAllowRemoteRender. rewrite Ht, Hd, Hr, Hm. reflexivity. }
      split; [exact Hc|].
      unfold renderTo, tryInit, renderTo_method. rewrite Hw, Hc, Hel.
      destruct selector; reflexivity.
Qed.

Lemma renderTo_remote_guard_witness :
  let out := renderTo render_ok delegate_ok (Some foreign_window) (Some (Selector "#login"))
               login_instance in
  let refused := renderTo render_ok delegate_ok (Some partner_window) None badge_instance in
  out.2 = Failed (Error "Can only renderTo an adjacent frame") /\
  errored out.1 = true /\
  trace out.1 =
    [Log "destroy"; CleanAll; Ran RemoveActiveComponent;
     Ran (Teardown "unloadWindowListener.cancel" (Resolved tt));
     OnError (Error "Can only renderTo an adjacent frame")] /\
  refused.2 =
    Failed (Error ("Can not render remotely to https://partner.example"
                   +:+ " - can only render to https://shop.example")).
Proof.
  cbn zeta.
  destruct (renderTo_remote_guard render_ok delegate_ok foreign_window
              (Some (Selector "#login")) login_instance) as [H _].
  destruct (H eq_refl eq_refl) as (_ & _ & Hp).
  destruct (Hp eq_refl eq_refl) as (H1 & H2 & H3).
  destruct (renderTo_remote_guard render_ok delegate_ok partner_window None badge_instance)
    as [_ Hcross].
  destruct (Hcross None "https://partner.example" eq_refl eq_refl eq_refl eq_refl eq_refl)
    as [Hrefuse _].
  destruct (Hrefuse eq_refl) as (_ & Hq).
  destruct (Hq eq_refl eq_refl) as (H4 & _).
  split; [exact H1|]. split; [exact H2|]. split; [rewrite H3; reflexivity|exact H4].
Defined.

(** ** Render task graph *)

Section RenderOrder.

Import RenderGraph.

Variable ric : bool.   (* this.driver.renderedIntoContainer *)

Lemma run_app (es1 es2 : list Step) (g : Graph) :
  run ric g (es1 ++ es2) =
    match run ric g es1 with
    | Some g1 => run ric g1 es2
    | None => None
    end.
Proof.
  revert g. induction es1 as [|e es1 IH]; intros g; cbn; [reflexivity|].
  destruct (step ric g e) as [g'|]; [apply IH|reflexivity].
Qed.

Lemma step_resolved (g g' : Graph) (e : Step) (d : Node) :
  step ric g e = Some g' ->
  (d ∈ resolved g' <-> d ∈ resolved g \/ e = Resolve d).
Proof.
  destruct e as [t|t|t]; cbn; intros H;
    match type of H with (if ?c then _ else _) = _ => destruct c end;
    try discriminate H; injection H as <-; cbn.
  - split; [intros H; left; exact H|]. intros [H|H]; [exact H|discriminate H].
  - rewrite elem_of_cons. split.
    + intros [->|H]; [right; reflexivity|left; exact H].
    + intros [H|H]; [right; exact H|left; congruence].
  - split; [intros H; left; exact H|]. intros [H|H]; [exact H|discriminate H].
Qed.

Lemma run_resolved (es : list Step) (g g' : Graph) (d : Node) :
  run ric g es = Some g' ->
  (d ∈ resolved g' <-> d ∈ resolved g \/ Resolve d ∈ es).
Proof.
  revert g. induction es as [|e es IH]; intros g; cbn.
  - intros [= ->]. split; [intros H; left; exact H|].
    intros [H|H]; [exact H|]. apply elem_of_nil in H. contradiction.
  - destruct (step ric g e) as [g1|] eqn:Hs; [|discriminate].
    intros H. rewrite (IH g1 H), (step_resolved g g1 e d Hs), elem_of_cons.
    split.
    + intros [[H1|H1]|H1]; [left; exact H1|right; left; congruence|right; right; exact H1].
    + intros [H1|[H1|H1]]; [left; left; exact H1|left; right; congruence|right; exact H1].
Qed.

Lemma begin_needs (g g' : Graph) (t d : Node) :
  step ric g (Begin t) = Some g' ->
  d ∈ awaits (source ric t) -> d ∈ resolved g.
Proof.
  cbn. intros H Hd.
  destruct (negb (is_external (source ric t)) && negb (mem t (begun g))
            && forallb (fun d => mem d (resolved g)) (awaits (source ric t))) eqn:Hc;
    [|discriminate H].
  apply andb_prop in Hc as [_ Hall].
  rewrite forallb_forall in Hall.
  specialize (Hall d (proj1 (list_elem_of_In _ _) Hd)).
  unfold mem in Hall. apply bool_decide_eq_true in Hall. exact Hall.
Qed.

(** A task begins only after every promise it awaits has resolved. *)
Lemma begins_after_awaited (pre post : list Step) (t d : Node) (g : Graph) :
  run ric initial (pre ++ Begin t :: post) = Some g ->
  d ∈ awaits (source ric t) -> Resolve d ∈ pre.
Proof.
  rewrite run_app. destruct (run ric initial pre) as [g1|] eqn:Hpre; [|discriminate].
  cbn [run]. destruct (step ric g1 (Begin t)) as [g2|] eqn:Hs; [|discriminate].
  intros _ Hd. pose proof (begin_needs g1 g2 t d Hs Hd) as Hr.
  apply (run_resolved pre initial g1 d Hpre) in Hr as [Hr|Hr]; [|exact Hr].
  cbn in Hr. apply elem_of_nil in Hr. contradiction.
Qed.

(** C4: in every execution of the render graph, [setWindowName] begins
    only after [open] and [getDomain] have resolved, and [switchPrerender]
    only after [prerender] and the readiness signal [onInit] have
    resolved. *)
Theorem render_dependency_order (pre post : list Step) (t : Node) (g : Graph) :
  run ric initial (pre ++ Begin t :: post) = Some g ->
  (t = setWindowName -> Resolve open ∈ pre /\ Resolve getDomain ∈ pre) /\
  (t = switchPrerender -> Resolve prerender ∈ pre /\ Resolve onInit ∈ pre).
Proof.
  intros H. split; intros ->; split;
    apply (begins_after_awaited pre post _ _ g H); cbn;
    repeat first [apply elem_of_cons; left; reflexivity | apply elem_of_cons; right].
Qed.

End RenderOrder.

Lemma render_dependency_order_witness :
  let pre := [RenderGraph.Begin RenderGraph.getDomain;
              RenderGraph.Begin RenderGraph.open;
              RenderGraph.Resolve RenderGraph.open;
              RenderGraph.Resolve RenderGraph.getDomain] in
  RenderGraph.run false RenderGraph.initial
    (pre ++ [RenderGraph.Begin RenderGraph.setWindowName]) <> None /\
  RenderGraph.Resolve RenderGraph.open ∈ pre /\
  RenderGraph.Resolve RenderGraph.getDomain ∈ pre.
Proof.
  cbn zeta. split; [vm_compute; discriminate|].
  eapply (render_dependency_order false _ [] RenderGraph.setWindowName);
    [vm_compute; reflexivity|reflexivity].
Defined.

(** ** Worked runs *)

(** One host [close()] on the login instance, call by call. *)
Example close_login_trace :
  trace (close None login_instance).1 =
    [Invoke ("close", None); Log "close"; TriggerOnce EVENTS_CLOSE;
     OnClose PARENT_CALL;
     Invoke ("closeComponent", None); TriggerOnce EVENTS_CLOSE; OnClose PARENT_CALL;
     Invoke ("hideComponent", None);
     Ran (Teardown "unloadWindowListener.cancel" (Resolved tt));
     Invoke ("closeContainer", None); TriggerOnce EVENTS_CLOSE; OnClose PARENT_CALL;
     Invoke ("closeComponent", Some PARENT_CALL); TriggerOnce EVENTS_CLOSE;
     OnClose PARENT_CALL;
     Invoke ("hideContainer", None); Invoke ("destroyContainer", None);
     Log "destroy"; CleanAll; Ran RemoveActiveComponent].
Proof. vm_compute. reflexivity. Qed.

(** When [onClose] rejects, [close] stops there: nothing is torn down. *)
Example close_rejected_by_onClose :
  let p := {| onClose := fun _ => Rejected (Thrown "no");
              onError := None; env := "production" |} in
  let s := constructed login_component (CONTEXT "iframe") iframe_driver p
             plain_helpers shop_window in
  (close None s).2 = Rejected (Thrown "no") /\
  count is_onClose (trace (close None s).1) = 1%nat /\
  count is_cleanAll (trace (close None s).1) = 0%nat.
Proof. vm_compute. repeat split; reflexivity. Qed.

(** A child window found closed: [onClose] gets [CLOSE_DETECTED], then the
    instance is destroyed. *)
Example close_detected_trace :
  trace (close_detected login_instance).1 =
    [Log "detect_close_child"; OnClose CLOSE_DETECTED; Log "destroy"; CleanAll;
     Ran RemoveActiveComponent;
     Ran (Teardown "unloadWindowListener.cancel" (Resolved tt))].
Proof. vm_compute. reflexivity. Qed.

(** Naming a child window for the partner frame registers the props under
    uid 0 and the window under uid 1; [destroy] removes both. *)
Example partner_registry_round_trip :
  let built := buildChildWindowName "https://partner.example" partner_window login_instance in
  payload_props built.2 = UID 0 /\
  payload_componentParent built.2 = GLOBAL 1 /\
  global_props built.1 !! 0%nat = Some "https://partner.example" /\
  global_windows built.1 !! 1%nat = Some shop_window /\
  global_props (destroy built.1).1 !! 0%nat = None /\
  global_windows (destroy built.1).1 !! 1%nat = None.
Proof. vm_compute. repeat split; reflexivity. Qed.

(** [renderTo] into a frame of another top-level window fails at the guard,
    with nothing logged, delegated or rendered; the instance is put into
    its error state. *)
Example renderTo_foreign_window :
  let out := renderTo render_ok delegate_ok (Some foreign_window) None login_instance in
  out.2 = Failed (Error "Can only renderTo an adjacent frame") /\
  errored out.1 = true /\ clean out.1 = [] /\
  trace out.1 =
    [Log "destroy"; CleanAll; Ran RemoveActiveComponent;
     Ran (Teardown "unloadWindowListener.cancel" (Resolved tt));
     OnError (Error "Can only renderTo an adjacent frame")].
Proof. vm_compute. repeat split; reflexivity. Qed.

(** [renderTo] into the partner frame goes ahead: the component's domain is
    the current origin. *)
Example renderTo_partner_window :
  (renderTo render_ok delegate_ok (Some partner_window) None login_instance).2 = Pending /\
  trace (renderTo render_ok delegate_ok (Some partner_window) None login_instance).1 =
    [Log "render_iframe_to_win"; Log "delegate"; Log "render"].
Proof. vm_compute. split; reflexivity. Qed.

(** A full run of the render graph for a driver rendering into a
    container, up to the start of [switchPrerender]. *)
Example render_graph_run :
  RenderGraph.run true RenderGraph.initial
    [RenderGraph.Begin RenderGraph.elementReady;
     RenderGraph.Begin RenderGraph.getDomain;
     RenderGraph.Resolve RenderGraph.elementReady;
     RenderGraph.Begin RenderGraph.openContainer;
     RenderGraph.Resolve RenderGraph.openContainer;
     RenderGraph.Begin RenderGraph.open;
     RenderGraph.Resolve RenderGraph.open;
     RenderGraph.Resolve RenderGraph.getDomain;
     RenderGraph.Begin RenderGraph.setWindowName;
     RenderGraph.Begin RenderGraph.prerender;
     RenderGraph.Resolve RenderGraph.prerender;
     RenderGraph.Resolve RenderGraph.onInit;
     RenderGraph.Begin RenderGraph.switchPrerender] <> None /\
  RenderGraph.run true RenderGraph.initial
    [RenderGraph.Begin RenderGraph.getDomain;
     RenderGraph.Begin RenderGraph.setWindowName] = None /\
  RenderGraph.run true RenderGraph.initial
    [RenderGraph.Begin RenderGraph.open] = None.
Proof. vm_compute. repeat split; (reflexivity || discriminate). Qed.

(** [renderTo] into the partner frame of a component served from the
    partner's domain is refused, although that is the frame's own origin:
    the domain is compared with the current origin. *)
Example renderTo_partner_component :
  (renderTo render_ok delegate_ok (Some partner_window) None badge_instance).2 =
    Failed (Error ("Can not render remotely to https://partner.example"
                   +:+ " - can only render to https://shop.example")) /\
  trace (renderTo render_ok delegate_ok (Some partner_window) None badge_instance).1 =
    [Log "destroy"; CleanAll; Ran RemoveActiveComponent;
     Ran (Teardown "unloadWindowListener.cancel" (Resolved tt));
     OnError (Error ("Can not render remotely to https://partner.example"
                     +:+ " - can only render to https://shop.example"))].
Proof. vm_compute. split; reflexivity. Qed.

(** The outlet is created once: element 0, a [div] with the outlet class. *)
Example outlet_created_once :
  let first := getOutlet login_instance in
  let second := getOutlet first.1 in
  first.2 = 0%nat /\ second.2 = 0%nat /\
  document second.1 = [outlet_node] /\
  count (is_invoke ("getOutlet", None)) (trace second.1) = 1%nat.
Proof. vm_compute. repeat split; reflexivity. Qed.

(** A window that closes 200ms from now: one open poll, the wait, one
    closed poll, and the user close with its reason. *)
Example checkClose_after_delay :
  let s := (checkClose (closing_window 200) login_instance).1 in
  take 4 (trace s) =
    [IsClosed 0 false; Delay 200; IsClosed 200 true; Invoke ("userClose", None)] /\
  close_reasons (trace s) = [USER_CLOSED; PARENT_CALL; PARENT_CALL; PARENT_CALL] /\
  now s = 200.
Proof. vm_compute. repeat split; reflexivity. Qed.

(** A window that stays open: two polls, no user close. *)
Example checkClose_still_open :
  trace (checkClose (closing_window 1000) login_instance).1 =
    [IsClosed 0 false; Delay 200; IsClosed 200 false].
Proof. vm_compute. reflexivity. Qed.

(** * Further properties *)

(** ** destroy and the registry *)

(** X1: [destroy()] leaves the registry empty, so a second [destroy()]
    tears nothing down: it resolves and leaves the instance as it is. *)
Theorem destroy_twice (s : Parent) :
  clean (destroy s).1 = [] /\
  destroy (destroy s).1 = ((destroy s).1, Resolved tt).
Proof.
  destruct (destroy_frame s) as (_ & _ & _ & _ & _ & _ & _ & _ & Hc & _).
  split; [exact Hc|]. unfold destroy at 1, Cleanup.hasTasks. rewrite Hc. reflexivity.
Qed.

Lemma run_action_props_kept (a : CleanupAction) (uid : nat) (s : Parent) :
  a <> DeleteGlobalProps uid ->
  global_props (Cleanup.run_action a s).1 !! uid = global_props s !! uid.
Proof.
  intros Ha. destruct a; unfold Cleanup.run_action; cbn; try reflexivity.
  apply lookup_delete_ne. congruence.
Qed.

Lemma run_action_windows_kept (a : CleanupAction) (uid : nat) (s : Parent) :
  a <> DeleteGlobalWindow uid ->
  global_windows (Cleanup.run_action a s).1 !! uid = global_windows s !! uid.
Proof.
  intros Ha. destruct a; unfold Cleanup.run_action; cbn; try reflexivity.
  apply lookup_delete_ne. congruence.
Qed.

Lemma run_tasks_props_kept (ts : list Task) (uid : nat) (s : Parent) :
  (forall tag, (tag, DeleteGlobalProps uid) ∉ ts) ->
  global_props (Cleanup.run_tasks ts s).1 !! uid = global_props s !! uid.
Proof.
  revert s. induction ts as [|[tag a] ts IH]; intros s H;
    unfold Cleanup.run_tasks; fold Cleanup.run_tasks; [reflexivity|].
  cbn [snd].
  assert (Ha : a <> DeleteGlobalProps uid).
  { intros ->. apply (H tag). apply elem_of_cons. left. reflexivity. }
  pose proof (run_action_props_kept a uid s Ha) as Hk.
  destruct (Cleanup.run_action a s) as [s1 r1]. cbn [fst] in Hk.
  assert (Hs : global_props (Cleanup.run_tasks ts s1).1 !! uid = global_props s1 !! uid).
  { apply IH. intros tag' Hin. apply (H tag'). apply elem_of_cons. right. exact Hin. }
  destruct (Cleanup.run_tasks ts s1) as [s2 r2]. cbn [fst] in *. congruence.
Qed.

Lemma run_tasks_windows_kept (ts : list Task) (uid : nat) (s : Parent) :
  (forall tag, (tag, DeleteGlobalWindow uid) ∉ ts) ->
  global_windows (Cleanup.run_tasks ts s).1 !! uid = global_windows s !! uid.
Proof.
  revert s. induction ts as [|[tag a] ts IH]; intros s H;
    unfold Cleanup.run_tasks; fold Cleanup.run_tasks; [reflexivity|].
  cbn [snd].
  assert (Ha : a <> DeleteGlobalWindow uid).
  { intros ->. apply (H tag). apply elem_of_cons. left. reflexivity. }
  pose proof (run_action_windows_kept a uid s Ha) as Hk.
  destruct (Cleanup.run_action a s) as [s1 r1]. cbn [fst] in Hk.
  assert (Hs : global_windows (Cleanup.run_tasks ts s1).1 !! uid = global_windows s1 !! uid).
  { apply IH. intros tag' Hin. apply (H tag'). apply elem_of_cons. right. exact Hin. }
  destruct (Cleanup.run_tasks ts s1) as [s2 r2]. cbn [fst] in *. congruence.
Qed.

(** X2: [destroy()] deletes from the global registries only what this
    instance registered a delete for: an entry under any other uid, a
    sibling instance's for one, is still there afterwards. *)
Theorem destroy_keeps_other_entries (s : Parent) (uid : nat) :
  ((forall tag, (tag, DeleteGlobalProps uid) ∉ clean s) ->
     global_props (destroy s).1 !! uid = global_props s !! uid) /\
  ((forall tag, (tag, DeleteGlobalWindow uid) ∉ clean s) ->
     global_windows (destroy s).1 !! uid = global_windows s !! uid).
Proof.
  unfold destroy, Cleanup.hasTasks.
  destruct (clean s) as [|t ts] eqn:Hc; [split; reflexivity|].
  unfold bind, log, emit, Cleanup.all. cbn [fst snd trace set_trace clean]. rewrite Hc.
  split; intros H.
  - rewrite run_tasks_props_kept by exact H. reflexivity.
  - rewrite run_tasks_windows_kept by exact H. reflexivity.
Qed.

Lemma run_frame (tag : string) (s : Parent) :
  clean (Cleanup.run tag s).1 =
    List.filter (fun t => negb (Cleanup.has_tag tag t)) (clean s) /\
  trace (Cleanup.run tag s).1 =
    trace s ++ ran (List.filter (Cleanup.has_tag tag) (clean s)).
Proof.
  unfold Cleanup.run.
  match goal with |- context [Cleanup.run_tasks ?l ?s0] =>
    destruct (run_tasks_frame l s0) as (_ & _ & _ & Hc & _ & _ & _ & _ & _ & Ht) end.
  rewrite Hc, Ht. split; reflexivity.
Qed.

Lemma has_tag_exclusive (a b : string) (t : Task) :
  a <> b -> Cleanup.has_tag a t = true -> Cleanup.has_tag b t = false.
Proof.
  unfold Cleanup.has_tag. intros Hab Ha.
  apply bool_decide_eq_true in Ha. apply bool_decide_eq_false. congruence.
Qed.

Lemma filter_other_tag (a b : string) (ts : list Task) :
  a <> b ->
  List.filter (Cleanup.has_tag a)
    (List.filter (fun t => negb (Cleanup.has_tag b t)) ts) =
  List.filter (Cleanup.has_tag a) ts.
Proof.
  intros Hab. induction ts as [|t ts IH]; [reflexivity|]. cbn.
  destruct (Cleanup.has_tag b t) eqn:Hb; cbn.
  - rewrite IH. destruct (Cleanup.has_tag a t) eqn:Ha; [|reflexivity].
    rewrite (has_tag_exclusive a b t Hab Ha) in Hb. discriminate Hb.
  - rewrite IH. reflexivity.
Qed.

Lemma filter_twice {A} (f g : A -> bool) (l : list A) :
  List.filter f (List.filter g l) = List.filter (fun x => g x && f x) l.
Proof.
  induction l as [|x l IH]; [reflexivity|]. cbn.
  destruct (g x); cbn; [destruct (f x)|]; rewrite IH; reflexivity.
Qed.

Lemma run_then {A} (tag : string) (m : M A) (s : Parent) :
  (Cleanup.run tag >> m) s = m (Cleanup.run tag s).1.
Proof.
  unfold bind. pose proof (run_resolves tag s) as Hr.
  destruct (Cleanup.run tag s) as [s1 r]. cbn [fst snd] in *. subst r. reflexivity.
Qed.

Lemma destroyComponent_unfold (s : Parent) :
  (destroyComponent s).1 =
    (Cleanup.run "destroyWindow"
       (Cleanup.run "destroyContainerEvents"
          (Cleanup.run "destroyCloseWindowListener"
             (Cleanup.run "destroyUnloadWindowListener" s).1).1).1).1.
Proof.
  unfold destroyComponent. unfold bind at 1. unfold bind at 1. rewrite run_then.
  pose proof (run_resolves "destroyCloseWindowListener"
                (Cleanup.run "destroyUnloadWindowListener" s).1) as H2.
  destruct (Cleanup.run "destroyCloseWindowListener" _) as [s2 r2].
  cbn [fst snd] in *. subst r2.
  pose proof (run_resolves "destroyContainerEvents" s2) as H3.
  destruct (Cleanup.run "destroyContainerEvents" s2) as [s3 r3].
  cbn [fst snd] in *. subst r3. reflexivity.
Qed.

(** X3: [destroyComponent()] runs the teardowns registered under its four
    tags, tag by tag, each of them returning, and nothing else: every
    other teardown stays registered, in order. *)
Theorem destroyComponent_runs_tagged_only (s : Parent) :
  clean (destroyComponent s).1 =
    List.filter (fun t => negb (has_any_tag component_tags t)) (clean s) /\
  trace (destroyComponent s).1 =
    trace s ++
    ran (flat_map (fun tag => List.filter (Cleanup.has_tag tag) (clean s)) component_tags).
Proof.
  rewrite destroyComponent_unfold.
  destruct (run_frame "destroyUnloadWindowListener" s) as [Hc1 Ht1].
  set (s1 := (Cleanup.run "destroyUnloadWindowListener" s).1) in *.
  destruct (run_frame "destroyCloseWindowListener" s1) as [Hc2 Ht2].
  set (s2 := (Cleanup.run "destroyCloseWindowListener" s1).1) in *.
  destruct (run_frame "destroyContainerEvents" s2) as [Hc3 Ht3].
  set (s3 := (Cleanup.run "destroyContainerEvents" s2).1) in *.
  destruct (run_frame "destroyWindow" s3) as [Hc4 Ht4].
  set (s4 := (Cleanup.run "destroyWindow" s3).1) in *.
  split.
  - rewrite Hc4, Hc3, Hc2, Hc1, !filter_twice.
    apply List.filter_ext. intros t. unfold has_any_tag, component_tags. cbn.
    repeat destruct (Cleanup.has_tag _ t); reflexivity.
  - rewrite Ht4, Ht3, Ht2, Ht1, Hc3, Hc2, Hc1.
    rewrite !filter_other_tag by discriminate.
    unfold component_tags, ran. cbn. rewrite app_nil_r, !map_app, <- !app_assoc.
    reflexivity.
Qed.

(** X4: when the child window is found closed, the instance is destroyed
    whatever [onClose] answers: [onClose] gets [CLOSE_DETECTED], then the
    whole registry is run, and the outcome is that of [onClose] unless the
    teardown itself fails. *)
Theorem close_detected_always_destroys (s : Parent) :
  let notified := observe [Log "detect_close_child"; OnClose CLOSE_DETECTED] s in
  clean (close_detected s).1 = [] /\
  trace (close_detected s).1 =
    trace s ++ [Log "detect_close_child"; OnClose CLOSE_DETECTED] ++ destroy_events s /\
  (close_detected s).2 =
    match (destroy notified).2 with
    | Resolved _ => onClose (props s) CLOSE_DETECTED
    | Rejected e => Rejected e
    end.
Proof.
  cbn zeta. unfold close_detected, bind, log, emit, finally, props_onClose.
  cbn [fst snd trace set_trace props].
  match goal with |- context [destroy ?s0] =>
    replace s0 with (observe [Log "detect_close_child"; OnClose CLOSE_DETECTED] s)
      by (unfold observe, set_trace; cbn; rewrite <- app_assoc; reflexivity) end.
  set (s0 := observe [Log "detect_close_child"; OnClose CLOSE_DETECTED] s).
  destruct (destroy_frame s0) as (_ & _ & _ & _ & _ & _ & _ & _ & Hc & Ht).
  destruct (destroy s0) as [sd [[]|e]]; cbn [fst snd] in *.
  - split; [exact Hc|]. split; [|reflexivity].
    rewrite Ht. unfold s0. cbn [observe trace set_trace]. rewrite <- app_assoc. reflexivity.
  - split; [exact Hc|]. split; [|reflexivity].
    rewrite Ht. unfold s0. cbn [observe trace set_trace]. rewrite <- app_assoc. reflexivity.
Qed.

(** ** Closing twice *)

Lemma bind_resolved {A B} (m : M A) (f : A -> M B) (s : Parent) (b : B) :
  ((m >>= f) s).2 = Resolved b ->
  exists a, (m s).2 = Resolved a /\ (m >>= f) s = f a (m s).1.
Proof. unfold bind. destruct (m s) as [s1 [a|e]]; cbn; [eauto|discriminate]. Qed.

Lemma all2_resolved {A B} (p : M A) (q : M B) (s : Parent) (ab : A * B) :
  (all2 p q s).2 = Resolved ab ->
  (exists a, (p s).2 = Resolved a) /\ (exists b, (q (p s).1).2 = Resolved b) /\
  (all2 p q s).1 = (q (p s).1).1.
Proof.
  unfold all2. destruct (p s) as [s1 [a|e]]; cbn [fst snd];
    destruct (q s1) as [s2 [b|e']]; cbn [fst snd]; try discriminate.
  intros _. eauto.
Qed.

Lemma memoized_miss (k : MemoKey) (m : M unit) (s : Parent) :
  memoized_calls s !! k = None ->
  let ran_body := m (set_trace (trace s ++ [Invoke k]) s) in
  memoized k m s =
    (set_memoized_calls (<[k := ran_body.2]> (memoized_calls ran_body.1)) ran_body.1,
     ran_body.2).
Proof.
  intros Hm. cbn zeta. unfold memoized. rewrite Hm.
  destruct (m _) as [s1 r]. reflexivity.
Qed.

(** A [close] that resolves leaves [closeComponent()] and
    [closeContainer()] done and the registry empty. *)
Lemma close_resolved_done (r0 : option CloseReason) (s : Parent) :
  memoized_calls s !! ("close", r0) = None ->
  (close r0 s).2 = Resolved tt ->
  memoized_calls (close r0 s).1 !! ("closeComponent", None) = Some (Resolved tt) /\
  memoized_calls (close r0 s).1 !! ("closeContainer", None) = Some (Resolved tt) /\
  clean (close r0 s).1 = [].
Proof.
  intros Hm. unfold close. rewrite (memoized_miss _ _ _ Hm). cbn zeta. cbn [fst snd].
  set (s0 := set_trace (trace s ++ [Invoke ("close", r0)]) s).
  intros Hr. apply bind_resolved in Hr as (a & Ha & ->).
  pose proof Ha as Ha'. apply bind_resolved in Ha' as (u & _ & HX).
  rewrite HX in Ha |- *.
  set (sa := ((log "close" >> triggerOnce EVENTS_CLOSE >>
               props_onClose (default_reason r0)) s0).1) in *.
  apply all2_resolved in Ha as ([[] Hcc] & [[] Hcn] & ->).
  pose proof (memoized_stores ("closeComponent", None)
    (cancelContainerEvents >>
     (triggerOnce EVENTS_CLOSE >> props_onClose (default_reason None)) >>
     hideComponent >> destroyComponent >> close_child) sa) as Hs1.
  fold (closeComponent None) in Hs1. rewrite Hcc in Hs1.
  set (sb := (closeComponent None sa).1) in *.
  pose proof (memoized_stores ("closeContainer", None)
    ((triggerOnce EVENTS_CLOSE >> props_onClose (default_reason None)) >>
     (all2 (closeComponent (Some (default_reason None))) hideContainer) >>
     destroyContainer) sb) as Hs2.
  fold (closeContainer None) in Hs2. rewrite Hcn in Hs2.
  assert (Hk : sound no_weight ∅ 0 (closeContainer None))
    by (apply sound_closeContainer; weigh).
  destruct Hk as [[Hstable _] _]. apply Hstable in Hs1.
  set (sc := (closeContainer None sb).1) in *.
  destruct (destroy_frame sc) as (_ & _ & Hmc & _ & _ & _ & _ & _ & Hclean & _).
  cbn [memoized_calls set_memoized_calls clean].
  rewrite !lookup_insert_ne by discriminate. rewrite Hmc.
  split; [exact Hs1|]. split; [exact Hs2|exact Hclean].
Qed.

Lemma close_body_only_notifies (r : CloseReason) (s : Parent) :
  memoized_calls s !! ("closeComponent", None) = Some (Resolved tt) ->
  memoized_calls s !! ("closeContainer", None) = Some (Resolved tt) ->
  clean s = [] ->
  ((log "close" >> triggerOnce EVENTS_CLOSE >> props_onClose r) >>
   (all2 (closeComponent None) (closeContainer None)) >>
   destroy) s =
    (observe [Log "close"; TriggerOnce EVENTS_CLOSE; OnClose r] s, onClose (props s) r).
Proof.
  intros Hcc Hcn Hc.
  rewrite bind_assoc. unfold bind at 1. rewrite close_notifies.
  fold (observe [Log "close"; TriggerOnce EVENTS_CLOSE; OnClose r] s).
  set (s' := observe [Log "close"; TriggerOnce EVENTS_CLOSE; OnClose r] s).
  assert (Hcc' : memoized_calls s' !! ("closeComponent", None) = Some (Resolved tt))
    by exact Hcc.
  assert (Hcn' : memoized_calls s' !! ("closeContainer", None) = Some (Resolved tt))
    by exact Hcn.
  assert (Hc' : clean s' = []) by exact Hc.
  destruct (onClose (props s) r) as [[]|e]; [|reflexivity].
  unfold bind, all2, closeComponent, closeContainer.
  rewrite (memoized_hit _ _ s' _ Hcc'). cbn beta iota.
  rewrite (memoized_hit _ _ s' _ Hcn'). cbn beta iota.
  unfold destroy, Cleanup.hasTasks. rewrite Hc'. reflexivity.
Qed.

Lemma userClose_only_notifies (s : Parent) :
  memoized_calls s !! ("close", Some USER_CLOSED) = None ->
  memoized_calls s !! ("closeComponent", None) = Some (Resolved tt) ->
  memoized_calls s !! ("closeContainer", None) = Some (Resolved tt) ->
  clean s = [] ->
  userClose s =
    (set_memoized_calls
       (<[("close", Some USER_CLOSED) := onClose (props s) USER_CLOSED]> (memoized_calls s))
       (observe [Invoke ("userClose", None); Invoke ("close", Some USER_CLOSED);
                 Log "close"; TriggerOnce EVENTS_CLOSE; OnClose USER_CLOSED] s),
     onClose (props s) USER_CLOSED).
Proof.
  intros Hm Hcc Hcn Hc. unfold userClose. unfold bind at 1. unfold emit at 1.
  unfold close. rewrite memoized_miss by exact Hm. cbn zeta.
  rewrite close_body_only_notifies by assumption.
  cbn [fst snd default_reason]. unfold observe, set_trace, set_memoized_calls. cbn.
  rewrite <- !app_assoc. reflexivity.
Qed.

(** X5: a user close that comes after a completed [close] made with other
    arguments is a new call for the memoization: [onClose] is asked again,
    now with [USER_CLOSED], and its answer is the outcome; nothing is
    closed, hidden or torn down a second time.  The same holds for a
    closed window found by [checkClose]. *)
Theorem userClose_after_close (r0 : option CloseReason) (s : Parent) :
  memoized_calls s !! ("close", r0) = None ->
  (close r0 s).2 = Resolved tt ->
  let s1 := (close r0 s).1 in
  memoized_calls s1 !! ("close", Some USER_CLOSED) = None ->
  let asked := [Invoke ("userClose", None); Invoke ("close", Some USER_CLOSED);
                Log "close"; TriggerOnce EVENTS_CLOSE; OnClose USER_CLOSED] in
  (userClose s1).2 = onClose (props s1) USER_CLOSED /\
  trace (userClose s1).1 = trace s1 ++ asked /\
  clean (userClose s1).1 = [] /\
  (forall win, isClosed win (now s1) = Resolved true ->
     (checkClose win s1).2 = onClose (props s1) USER_CLOSED /\
     trace (checkClose win s1).1 = trace s1 ++ IsClosed (now s1) true :: asked).
Proof.
  intros Hm Hr s1 Hu asked.
  destruct (close_resolved_done r0 s Hm Hr) as (Hcc & Hcn & Hc). fold s1 in Hcc, Hcn, Hc.
  rewrite (userClose_only_notifies s1 Hu Hcc Hcn Hc). cbn [fst snd].
  split; [reflexivity|]. split; [reflexivity|]. split; [exact Hc|].
  intros win Hw. rewrite checkClose_unfold, Hw.
  rewrite (userClose_only_notifies (observe [IsClosed (now s1) true] s1) Hu Hcc Hcn Hc).
  cbn [fst snd]. split; [reflexivity|].
  cbn [trace set_memoized_calls observe set_trace]. rewrite <- app_assoc. reflexivity.
Qed.

Lemma userClose_after_close_witness :
  let s1 := (close None login_instance).1 in
  (userClose s1).2 = Resolved tt /\
  close_reasons (trace (userClose s1).1) =
    [PARENT_CALL; PARENT_CALL; PARENT_CALL; PARENT_CALL; USER_CLOSED] /\
  count is_cleanAll (trace (userClose s1).1) = 1%nat.
Proof.
  destruct (userClose_after_close None login_instance eq_refl eq_refl eq_refl)
    as (Hr & Ht & _).
  cbn zeta. rewrite Hr, Ht. vm_compute. repeat split; reflexivity.
Defined.

Lemma then_destroy_resolved {A} (m : M A) (s : Parent) :
  (bind m (fun _ => destroy) s).2 = Resolved tt ->
  clean (bind m (fun _ => destroy) s).1 = [].
Proof.
  unfold bind. destruct (m s) as [s1 [a|e]]; cbn [snd]; [|discriminate].
  intros _. apply (destroy_frame s1).
Qed.

(** X6: a [close()] that resolves has destroyed the instance: it went
    through [destroy], so no teardown is left registered. *)
Theorem close_resolved_destroys (reason : option CloseReason) (s : Parent) :
  memoized_calls s !! ("close", reason) = None ->
  (close reason s).2 = Resolved tt ->
  clean (close reason s).1 = [] /\
  memoized_calls (close reason s).1 !! ("close", reason) = Some (Resolved tt).
Proof.
  intros Hm. unfold close, memoized. rewrite Hm.
  match goal with |- context [bind ?m ?f ?s0] =>
    pose proof (then_destroy_resolved m s0) as H;
    destruct (bind m f s0) as [s1 r] end.
  cbn [fst snd] in *. intros ->. split; [exact (H eq_refl)|].
  cbn. apply lookup_insert_eq.
Qed.

Lemma close_resolved_destroys_witness :
  clean (close None login_instance).1 = [].
Proof.
  apply (close_resolved_destroys None login_instance); reflexivity.
Defined.

(** X7: an [onClose] that rejects stops [close(reason)] before anything
    is taken down: the registry and the container are as they were.  The
    rejected promise is the memoized result for these arguments, so a
    later [close] with the same arguments hands back that rejection
    without doing anything; a [close] with other arguments is a call of
    its own and asks [onClose] again, with its own reason. *)
Theorem close_vetoed_keeps_instance (reason : option CloseReason) (s : Parent) (e : Err) :
  memoized_calls s !! ("close", reason) = None ->
  onClose (props s) (default_reason reason) = Rejected e ->
  let vetoed := (close reason s).1 in
  (close reason s).2 = Rejected e /\
  clean vetoed = clean s /\
  container vetoed = container s /\
  trace vetoed =
    trace s ++ [Invoke ("close", reason); Log "close"; TriggerOnce EVENTS_CLOSE;
                OnClose (default_reason reason)] /\
  close reason vetoed = (vetoed, Rejected e) /\
  (forall reason',
     reason' <> reason ->
     memoized_calls s !! ("close", reason') = None ->
     exists rest,
       trace (close reason' vetoed).1 =
         trace vetoed ++ [Invoke ("close", reason'); Log "close";
                          TriggerOnce EVENTS_CLOSE;
                          OnClose (default_reason reason')] ++ rest).
Proof.
  intros Hm Hc. cbn zeta.
  assert (Hrun : close reason s =
            (set_memoized_calls (<[("close", reason) := Rejected e]> (memoized_calls s))
               (observe [Invoke ("close", reason); Log "close"; TriggerOnce EVENTS_CLOSE;
                         OnClose (default_reason reason)] s), Rejected e)).
  { unfold close, memoized. rewrite Hm.
    unfold bind, log, triggerOnce, emit, props_onClose.
    cbn [fst snd trace set_trace props]. rewrite Hc.
    unfold observe, set_trace, set_memoized_calls. cbn. rewrite <- !app_assoc. reflexivity. }
  rewrite Hrun. cbn [fst snd].
  split; [reflexivity|]. split; [reflexivity|]. split; [reflexivity|].
  split; [reflexivity|]. split.
  - unfold close, memoized. cbn [memoized_calls set_memoized_calls].
    rewrite lookup_insert_eq. reflexivity.
  - intros reason' Hne Hm'.
    match goal with |- context [close reason' ?v] =>
      destruct (close_first_reason reason' v) as (rest & Ht & _) end.
    + cbn [memoized_calls set_memoized_calls].
      rewrite lookup_insert_ne by congruence. exact Hm'.
    + exists rest. exact Ht.
Qed.

Lemma close_vetoed_keeps_instance_witness :
  close None (close None vetoing_instance).1
  = ((close None vetoing_instance).1, Rejected (Error "stay")) /\
  close_reasons (trace (close (Some USER_CLOSED) (close None vetoing_instance).1).1)
  = [PARENT_CALL; USER_CLOSED].
Proof.
  pose proof (close_vetoed_keeps_instance None vetoing_instance
                (Error "stay") eq_refl eq_refl) as H.
  cbn zeta in H. destruct H as (_ & _ & _ & _ & H & _). split; [apply H|reflexivity].
Defined.

(** ** Readiness *)

Lemma tryInit_after_failure (method : M unit) (s : Parent) (err : Err) :
  onInit (method s).1 = Some (Failed err) ->
  (tryInit method s).2 = Failed err.
Proof.
  intros Hg. unfold tryInit.
  destruct (method s) as [s1 [[]|err']]; cbn [fst] in Hg; rewrite Hg; reflexivity.
Qed.

(** X8: once [onInit] has settled, [tryInit] reports that outcome whatever
    the method does: a method that fails afterwards changes neither the
    instance nor what the caller gets. *)
Theorem tryInit_reports_settled_onInit (method : M unit) (s : Parent) (g : Signal) :
  onInit (method s).1 = Some g ->
  g <> Pending ->
  tryInit method s = ((method s).1, g).
Proof.
  intros Hg Hp. unfold tryInit.
  destruct (method s) as [s1 [[]|err]]; cbn [fst] in *.
  - rewrite Hg. reflexivity.
  - rewrite Hg. destruct s1; cbn in *. subst onInit0.
    destruct g; [congruence| |]; reflexivity.
Qed.

Lemma tryInit_reports_settled_onInit_witness :
  tryInit (throw (Error "late")) (set_onInit (Some Ready) login_instance)
  = (set_onInit (Some Ready) login_instance, Ready).
Proof.
  apply (tryInit_reports_settled_onInit (throw (Error "late"))
           (set_onInit (Some Ready) login_instance) Ready);
    [reflexivity | discriminate].
Defined.

(** X9: [error(err)] on an instance that is not ready yet rejects its
    [onInit] with [err], so a [render] that comes afterwards fails with
    that same [err], even when its own method goes through. *)
Theorem error_fails_later_render (err : Err) (p : Props) (s : Parent) (method : M unit) :
  errored s = false ->
  signal_of (onInit s) = Pending ->
  let s1 := (error err p s).1 in
  onInit (method s1).1 = onInit s1 ->
  onInit s1 = Some (Failed err) /\ (tryInit method s1).2 = Failed err.
Proof.
  intros He Hp s1 Hm.
  assert (Ho : onInit s1 = Some (Failed err)).
  { unfold s1. rewrite (error_onInit err p s He), Hp. reflexivity. }
  split; [exact Ho|].
  apply tryInit_after_failure. congruence.
Qed.

Lemma error_fails_later_render_witness :
  onInit (error (Error "boom") quiet_props login_instance).1 = Some (Failed (Error "boom")) /\
  (tryInit (ret tt) (error (Error "boom") quiet_props login_instance).1).2
  = Failed (Error "boom").
Proof.
  apply (error_fails_later_render (Error "boom") quiet_props login_instance (ret tt));
    reflexivity.
Defined.

(** X10: the constructor's handler is attached to [onInit], so a [render]
    that fails before the instance is ready does more than reject: it
    sets the error flag, runs every registered teardown and then hands the
    error to the [onError] the constructor was given; the caller of
    [render] gets the error as well. *)
Theorem failing_render_runs_error_handling
  (method : M unit) (s s1 : Parent) (err : Err) :
  method s = (s1, Rejected err) ->
  onInit s1 = Some Pending ->
  errored s1 = false ->
  let out := tryInit method s in
  out.2 = Failed err /\
  errored out.1 = true /\
  onInit out.1 = Some (Failed err) /\
  clean out.1 = [] /\
  trace out.1 =
    trace s1 ++ destroy_events s1 ++
    match onError (constructor_props s1) with Some _ => [OnError err] | None => [] end.
Proof.
  intros Hm Ho He. cbn zeta. unfold tryInit. rewrite Hm, Ho. cbn [fst snd].
  set (s2 := set_onInit (Some (Failed err)) s1).
  assert (He2 : errored s2 = false) by exact He.
  split; [reflexivity|].
  split; [apply error_sets_flag|].
  split; [rewrite (error_onInit err _ s2 He2); reflexivity|].
  exact (error_trace_clean err (constructor_props s1) s2 He2).
Qed.

Lemma failing_render_runs_error_handling_witness :
  (tryInit (throw (Error "no element")) login_instance).2 = Failed (Error "no element") /\
  errored (tryInit (throw (Error "no element")) login_instance).1 = true /\
  trace (tryInit (throw (Error "no element")) login_instance).1 =
    [Log "destroy"; CleanAll; Ran RemoveActiveComponent;
     Ran (Teardown "unloadWindowListener.cancel" (Resolved tt));
     OnError (Error "no element")].
Proof.
  pose proof (failing_render_runs_error_handling
                (throw (Error "no element")) login_instance login_instance
                (Error "no element") eq_refl eq_refl eq_refl) as H.
  cbn zeta in H. destruct H as (H1 & H2 & _ & _ & H3).
  split; [exact H1|]. split; [exact H2|]. rewrite H3. reflexivity.
Defined.

(** ** Bootstrap payload *)

(** X11: building the payload for a child rendered into the current window
    stores nothing globally and registers no teardown: the props travel
    in the window name itself and the parent is named by position. *)
Theorem buildChildWindowName_own_window (domain : string) (s : Parent) :
  let out := buildChildWindowName domain (window s) s in
  global_props out.1 = global_props s /\
  global_windows out.1 = global_windows s /\
  clean out.1 = clean s /\
  payload_props out.2 = RAW (serializeMessage (helpers s) domain PropsForChild) /\
  payload_componentParent out.2 =
    (if is_popup (context s) then OPENER
     else if isTop (window s) then TOP
     else PARENT (win_distance (window s))).
Proof.
  cbn zeta. unfold buildChildWindowName, getComponentParentRef, uniqueID, isSameDomain,
    same_window.
  cbn [window set_next_uid context]. rewrite Nat.eqb_refl.
  destruct (is_popup (context s)); [|destruct (isTop (window s))];
    cbn [window set_next_uid]; rewrite String.eqb_refl; cbn; repeat split; reflexivity.
Qed.

(** X12: whatever the target, building the payload writes to the global
    registries only under uids drawn for this payload: every entry that
    was there under an older uid is still there, unchanged. *)
Theorem buildChildWindowName_keeps_registries
  (domain : string) (target : Window) (s : Parent) (k : nat) :
  (k < next_uid s)%nat ->
  let out := buildChildWindowName domain target s in
  global_props out.1 !! k = global_props s !! k /\
  global_windows out.1 !! k = global_windows s !! k /\
  (next_uid s < next_uid out.1)%nat.
Proof.
  intros Hk. cbn zeta.
  unfold buildChildWindowName, getComponentParentRef, uniqueID, isSameDomain.
  cbn [window set_next_uid context next_uid].
  destruct (is_popup (context s)); [|destruct (same_window target (window s))];
    [| destruct (isTop (window s)) |];
    cbn [window set_next_uid fst snd];
    match goal with |- context [if ?b then RAW _ else _] => destruct b end;
    cbn; rewrite ?lookup_insert_ne by lia; repeat split; try reflexivity; lia.
Qed.

Lemma buildChildWindowName_keeps_registries_witness :
  global_props (buildChildWindowName "https://partner.example" partner_window
                  (set_next_uid 8 (set_global_props (<[7%nat := "sibling"]> ∅) badge_instance))).1
    !! 7%nat = Some "sibling".
Proof.
  pose proof (buildChildWindowName_keeps_registries "https://partner.example" partner_window
                (set_next_uid 8 (set_global_props (<[7%nat := "sibling"]> ∅) badge_instance))
                7%nat ltac:(cbn; lia)) as H.
  cbn zeta in H. destruct H as (H & _). rewrite H. reflexivity.
Defined.

(** ** Resize without a transition to wait for *)

(** X13: when the driver's resize throws, or when there is no element,
    [resize] neither hides the overflow nor waits, whatever
    [waitForTransition] says: the document is left as it is and the
    driver's outcome is the result. *)
Theorem resize_without_transition
  (width height : option Z) (waitForTransition : option bool) (s : Parent) :
  element s = None \/ (exists e, driver_resize (driver s) width height = Rejected e) ->
  resize width height waitForTransition s =
    (observe [Log "resize"; DriverResize width height] s,
     driver_resize (driver s) width height).
Proof.
  intros H. unfold resize, bind, log, emit, call_driver_resize, ret.
  cbn [fst snd trace set_trace driver element].
  assert (Hs : set_trace ((trace s ++ [Log "resize"]) ++ [DriverResize width height])
                 (set_trace (trace s ++ [Log "resize"]) s)
               = observe [Log "resize"; DriverResize width height] s).
  { unfold observe, set_trace. cbn. rewrite <- app_assoc. reflexivity. }
  destruct (driver_resize (driver s) width height) as [[]|e] eqn:Hd.
  - destruct H as [He | [e He]]; [|discriminate He].
    destruct (negb (default_wait waitForTransition)); cbn; [rewrite Hs; reflexivity|].
    rewrite He. rewrite Hs. reflexivity.
  - rewrite Hs. reflexivity.
Qed.

Lemma resize_without_transition_witness :
  resize (Some 300) None None login_instance =
    (observe [Log "resize"; DriverResize (Some 300) None] login_instance, Resolved tt).
Proof.
  apply (resize_without_transition (Some 300) None None login_instance).
  left. reflexivity.
Defined.

(** ** Container *)

(** X14: [openContainer] fails before it has rendered anything when
    [getElement] throws, with the error of [getElement], when there is no
    element to render into, and when the driver renders into the
    container of a component that has no container template.  A component
    without container template whose driver does not need one gets
    nothing opened.  In all these cases the instance is left exactly as
    it was. *)
Theorem openContainer_failure (body : option Elem) (element : option ElementRef)
  (s : Parent) :
  let found := container_element body element s in
  (forall given, element = Some given -> found = getElement (helpers s) given) /\
  (element = None -> found = Resolved body) /\
  (forall e, found = Rejected e ->
     openContainer_element body element s = (s, Rejected e)) /\
  (found = Resolved None ->
     openContainer_element body element s =
       (s, Rejected (Error "Could not find element to open container into"))) /\
  (forall el, found = Resolved (Some el) ->
     containerTemplate (component s) = false ->
     openContainer_element body element s =
       (s, if renderedIntoContainer (driver s)
           then Rejected (Error ("containerTemplate needed to render "
                                 ++ context_name (context s)))
           else Resolved tt)).
Proof.
  cbn zeta. split; [intros given ->; reflexivity|]. split; [intros ->; reflexivity|].
  unfold openContainer_element. split; [|split].
  - intros e ->. reflexivity.
  - intros ->. reflexivity.
  - intros el -> Hc. unfold openContainer. rewrite Hc. cbn [negb].
    destruct (renderedIntoContainer (driver s)); reflexivity.
Qed.

Lemma openContainer_failure_witness :
  openContainer_element None (Some (ASelector "#missing")) login_instance =
    (login_instance, Rejected (Error "Can not find element: #missing")) /\
  openContainer_element None None login_instance =
    (login_instance, Rejected (Error "Could not find element to open container into")).
Proof.
  destruct (openContainer_failure None (Some (ASelector "#missing")) login_instance)
    as (_ & _ & H1 & _).
  destruct (openContainer_failure None None login_instance) as (_ & _ & _ & H2 & _).
  split; [apply H1; reflexivity|apply H2; reflexivity].
Defined.

Lemma run_tasks_app (l1 l2 : list Task) (s : Parent) :
  (Cleanup.run_tasks (l1 ++ l2) s).1 =
  (Cleanup.run_tasks l2 (Cleanup.run_tasks l1 s).1).1.
Proof.
  revert s. induction l1 as [|t l1 IH]; intros s; [reflexivity|].
  rewrite <- app_comm_cons. unfold Cleanup.run_tasks; fold Cleanup.run_tasks.
  destruct (Cleanup.run_action t.2 s) as [s1 r1].
  specialize (IH s1).
  destruct (Cleanup.run_tasks (l1 ++ l2) s1) as [s2 r2].
  destruct (Cleanup.run_tasks l1 s1) as [s3 r3]. exact IH.
Qed.

Lemma has_tag_same (tag : string) (a : CleanupAction) :
  Cleanup.has_tag tag (Some tag, a) = true.
Proof. apply bool_decide_eq_true_2. reflexivity. Qed.

Lemma has_tag_other (tag tag' : string) (a : CleanupAction) :
  tag <> tag' -> Cleanup.has_tag tag (Some tag', a) = false.
Proof. intros H. apply bool_decide_eq_false_2. cbn. congruence. Qed.

Lemma openContainer_opened (el : Elem) (s : Parent) :
  containerTemplate (component s) = true ->
  let o := (openContainer (Some el) s).1 in
  (openContainer (Some el) s).2 = Resolved tt /\
  memoized_calls o = memoized_calls s /\
  clean o = clean s ++ [(Some "destroyContainerTemplate", RemoveContainer)] /\
  is_Some (container o).
Proof.
  intros Hc. cbn zeta. unfold openContainer. rewrite Hc. cbn [negb].
  unfold bind, renderTemplate, hideElement, appendChild, emit, Cleanup.register, ret,
    getOutlet, createElement.
  destruct (memoized_outlet s) eqn:Ho; destruct (renderedIntoContainer (driver s));
    cbn; rewrite ?Ho; cbn; repeat split; eauto.
Qed.

(** X15: a container opened by [openContainer] is taken down again by
    [destroyContainer]: the template's removal is registered under the tag
    [destroyContainer] runs, so afterwards the instance has no container
    and no removal is left in the registry. *)
Theorem openContainer_destroyContainer (el : Elem) (s : Parent) :
  containerTemplate (component s) = true ->
  memoized_calls s !! ("destroyContainer", None) = None ->
  let opened := (openContainer (Some el) s).1 in
  is_Some (container opened) /\
  destroyContainer opened = ((destroyContainer opened).1, Resolved tt) /\
  container (destroyContainer opened).1 = None /\
  (forall a, (Some "destroyContainerTemplate", a) ∉ clean (destroyContainer opened).1).
Proof.
  intros Hc Hm. cbn zeta.
  destruct (openContainer_opened el s Hc) as (_ & Hmo & Hco & Hsome).
  set (o := (openContainer (Some el) s).1) in *.
  split; [exact Hsome|].
  assert (Hmiss : memoized_calls o !! ("destroyContainer", None) = None)
    by (rewrite Hmo; exact Hm).
  unfold destroyContainer. rewrite (memoized_miss _ _ _ Hmiss). cbn zeta.
  set (o1 := set_trace (trace o ++ [Invoke ("destroyContainer", None)]) o).
  rewrite run_then.
  destruct (run_frame "destroyContainerEvents" o1) as [Hc1 _].
  set (o2 := (Cleanup.run "destroyContainerEvents" o1).1) in *.
  change (clean o1) with (clean o) in Hc1. rewrite Hco, List.filter_app in Hc1.
  cbn [List.filter] in Hc1. rewrite has_tag_other in Hc1 by discriminate. cbn [negb] in Hc1.
  destruct (run_frame "destroyContainerTemplate" o2) as [Hc2 _].
  rewrite (run_resolves "destroyContainerTemplate" o2).
  split; [reflexivity|]. cbn [fst container set_memoized_calls clean].
  split.
  - unfold Cleanup.run. rewrite Hc1, List.filter_app. cbn [List.filter].
    rewrite has_tag_same. rewrite run_tasks_app. unfold Cleanup.run_tasks at 1, Cleanup.run_action. reflexivity.
  - intros a Hin. rewrite Hc2 in Hin.
    apply list_elem_of_In, List.filter_In in Hin as [_ Hn].
    rewrite has_tag_same in Hn. discriminate Hn.
Qed.

Lemma openContainer_destroyContainer_witness :
  container (destroyContainer (openContainer (Some 0%nat) login_instance).1).1 = None.
Proof.
  pose proof (openContainer_destroyContainer 0%nat login_instance eq_refl eq_refl) as H.
  cbn zeta in H. destruct H as (_ & _ & H & _). exact H.
Defined.

(** ** The render graph as a whole *)

Section RenderReach.

Import RenderGraph.

Variable ric : bool.   (* this.driver.renderedIntoContainer *)

Lemma mem_true (t : Node) (l : list Node) : mem t l = true <-> t ∈ l.
Proof. unfold mem. apply bool_decide_eq_true. Qed.

Lemma mem_false (t : Node) (l : list Node) : mem t l = false <-> t ∉ l.
Proof. unfold mem. apply bool_decide_eq_false. Qed.

Lemma initial_inv : graph_inv ric initial.
Proof.
  unfold graph_inv, initial. cbn.
  repeat split; intros; exfalso; eapply elem_of_nil; eassumption.
Qed.

Lemma step_inv (g g' : Graph) (e : Step) :
  graph_inv ric g -> step ric g e = Some g' -> graph_inv ric g'.
Proof.
  intros (I1 & I2 & I3 & I4) Hs. destruct e as [t|t|t]; cbn in Hs;
    match type of Hs with (if ?c then _ else _) = _ => destruct c eqn:Hc end;
    try discriminate Hs; injection Hs as <-; unfold graph_inv; cbn.
  - apply andb_true_iff in Hc as [Hc Hall]. apply andb_true_iff in Hc as [Hext _].
    apply negb_true_iff in Hext. rewrite forallb_forall in Hall.
    split; [|split; [|split]].
    + intros t' [->|H]%elem_of_cons; [exact Hext|exact (I1 t' H)].
    + intros t' d [->|H]%elem_of_cons Hd; [|apply (I2 t' d H Hd)].
      apply mem_true, Hall, list_elem_of_In, Hd.
    + intros t' H. destruct (I3 t' H) as [Hb|Hx]; [left|right; exact Hx].
      apply elem_of_cons. right. exact Hb.
    + exact I4.
  - apply andb_true_iff in Hc as [Hb Hn]. apply negb_true_iff in Hn.
    unfold settled in Hn. apply orb_false_iff in Hn as [_ Hrej].
    apply mem_false in Hrej.
    split; [exact I1|split; [|split]].
    + intros t' d H Hd. apply elem_of_cons. right. apply (I2 t' d H Hd).
    + intros t' [->|H]%elem_of_cons; [|apply I3, H].
      apply orb_true_iff in Hb as [Hb|Hb]; [left; apply mem_true, Hb|right; exact Hb].
    + intros t' [->|H]%elem_of_cons; [exact Hrej|apply I4, H].
  - apply andb_true_iff in Hc as [_ Hn]. apply negb_true_iff in Hn.
    unfold settled in Hn. apply orb_false_iff in Hn as [Hres _].
    apply mem_false in Hres.
    split; [exact I1|split; [exact I2|split; [exact I3|]]].
    intros t' H [->|Hr]%elem_of_cons; [exact (Hres H)|exact (I4 t' H Hr)].
Qed.

Lemma run_inv (es : list Step) (g g' : Graph) :
  graph_inv ric g -> run ric g es = Some g' -> graph_inv ric g'.
Proof.
  revert g. induction es as [|e es IH]; intros g Hi; cbn.
  - intros [= <-]. exact Hi.
  - destruct (step ric g e) as [g1|] eqn:Hs; [|discriminate].
    apply IH. exact (step_inv g g1 e Hi Hs).
Qed.

Lemma step_rejected_mono (g g' : Graph) (e : Step) (d : Node) :
  step ric g e = Some g' -> d ∈ rejected g -> d ∈ rejected g'.
Proof.
  destruct e as [t|t|t]; cbn; intros H;
    match type of H with (if ?c then _ else _) = _ => destruct c end;
    try discriminate H; injection H as <-; cbn; intros Hd; try exact Hd.
  apply elem_of_cons. right. exact Hd.
Qed.

Lemma run_rejected_mono (es : list Step) (g g' : Graph) (d : Node) :
  run ric g es = Some g' -> d ∈ rejected g -> d ∈ rejected g'.
Proof.
  revert g. induction es as [|e es IH]; intros g; cbn.
  - intros [= <-] H. exact H.
  - destruct (step ric g e) as [g1|] eqn:Hs; [|discriminate].
    intros H Hd. apply (IH g1 H). exact (step_rejected_mono g g1 e d Hs Hd).
Qed.

Lemma depends_not_external (t d : Node) :
  depends ric t d -> is_external (source ric t) = false.
Proof.
  induction 1 as [t d Hd|t m d _ IH _ _]; [|exact IH].
  destruct (source ric t); try reflexivity. cbn in Hd.
  exfalso. eapply elem_of_nil. exact Hd.
Qed.

Lemma begun_needs_all (g : Graph) (t d : Node) :
  graph_inv ric g -> depends ric t d -> t ∈ begun g -> d ∈ resolved g.
Proof.
  intros (I1 & I2 & I3 & I4) Hd. induction Hd as [t d Hd|t m d _ IH1 H2 IH2]; intros Hb.
  - exact (I2 t d Hb Hd).
  - apply IH2. destruct (I3 m (IH1 Hb)) as [Hm|Hx]; [exact Hm|].
    rewrite (depends_not_external m d H2) in Hx. discriminate Hx.
Qed.

(** X16: in every execution of [render], a task that has begun has seen
    resolve, and before that begin, everything it waits for, directly or
    through other tasks: [loadUrl] is never started before [getDomain] has
    resolved, nor the timeout armed before the window is open. *)
Theorem render_begins_after_all_it_depends_on (es : list Step) (g : Graph) (t d : Node) :
  run ric initial es = Some g ->
  t ∈ begun g ->
  depends ric t d ->
  d ∈ resolved g /\ (d ∉ rejected g) /\
  (is_external (source ric d) = false -> d ∈ begun g).
Proof.
  intros Hrun Hb Hd.
  pose proof (run_inv es initial g initial_inv Hrun) as Hi.
  pose proof (begun_needs_all g t d Hi Hd Hb) as Hr.
  destruct Hi as (_ & _ & I3 & I4).
  split; [exact Hr|]. split; [exact (I4 d Hr)|].
  intros Hx. destruct (I3 d Hr) as [H|H]; [exact H|congruence].
Qed.

(** X17: in every execution of [render], once a promise has rejected no
    task that waits for it, directly or through other tasks, ever begins:
    after a failed [getDomain] the window gets no name, no URL is loaded
    and no timeout is armed. *)
Theorem render_rejection_blocks_dependents
  (es es' : list Step) (g g' : Graph) (t d : Node) :
  run ric initial es = Some g ->
  d ∈ rejected g ->
  depends ric t d ->
  run ric g es' = Some g' ->
  t ∉ begun g'.
Proof.
  intros Hrun Hrej Hd Hrun' Hb.
  pose proof (run_inv es initial g initial_inv Hrun) as Hi.
  pose proof (run_inv es' g g' Hi Hrun') as Hi'.
  pose proof (begun_needs_all g' t d Hi' Hd Hb) as Hr.
  destruct Hi' as (_ & _ & _ & I4).
  exact (I4 d Hr (run_rejected_mono es' g g' d Hrun' Hrej)).
Qed.

End RenderReach.

Lemma render_begins_after_all_it_depends_on_witness :
  exists g,
    RenderGraph.run false RenderGraph.initial load_schedule = Some g /\
    RenderGraph.getDomain ∈ RenderGraph.resolved g.
Proof.
  eexists. split; [vm_compute; reflexivity|].
  eapply (render_begins_after_all_it_depends_on false load_schedule _ RenderGraph.loadUrl
            RenderGraph.getDomain).
  - vm_compute. reflexivity.
  - apply elem_of_cons. left. reflexivity.
  - apply (depends_via false _ RenderGraph.setWindowName).
    + apply depends_on. cbn. apply elem_of_cons. right. apply elem_of_cons. right.
      apply elem_of_cons. left. reflexivity.
    + apply depends_on. cbn. apply elem_of_cons. right. apply elem_of_cons. left. reflexivity.
Defined.

Lemma render_rejection_blocks_dependents_witness :
  exists g g',
    RenderGraph.run false RenderGraph.initial
      [RenderGraph.Begin RenderGraph.getDomain; RenderGraph.Reject RenderGraph.getDomain]
      = Some g /\
    RenderGraph.run false g
      [RenderGraph.Begin RenderGraph.open; RenderGraph.Resolve RenderGraph.open;
       RenderGraph.Begin RenderGraph.buildUrl; RenderGraph.Resolve RenderGraph.buildUrl;
       RenderGraph.Reject RenderGraph.setWindowName] = Some g' /\
    RenderGraph.loadUrl ∉ RenderGraph.begun g'.
Proof.
  eexists. eexists. split; [vm_compute; reflexivity|]. split; [vm_compute; reflexivity|].
  eapply (render_rejection_blocks_dependents false
            [RenderGraph.Begin RenderGraph.getDomain; RenderGraph.Reject RenderGraph.getDomain]
            [RenderGraph.Begin RenderGraph.open; RenderGraph.Resolve RenderGraph.open;
             RenderGraph.Begin RenderGraph.buildUrl; RenderGraph.Resolve RenderGraph.buildUrl;
             RenderGraph.Reject RenderGraph.setWindowName]
            _ _ RenderGraph.loadUrl RenderGraph.getDomain).
  - vm_compute. reflexivity.
  - apply elem_of_cons. left. reflexivity.
  - apply (depends_via false _ RenderGraph.setWindowName).
    + apply depends_on. cbn. apply elem_of_cons. right. apply elem_of_cons. right.
      apply elem_of_cons. left. reflexivity.
    + apply depends_on. cbn. apply elem_of_cons. right. apply elem_of_cons. left. reflexivity.
  - vm_compute. reflexivity.
Defined.

(** X18: the render graph has no cycle and no task left waiting: for
    either kind of driver there is an execution in which every task begins
    and every promise resolves. *)
Theorem render_can_complete (ric : bool) :
  exists g,
    RenderGraph.run ric RenderGraph.initial full_render = Some g /\
    RenderGraph.rejected g = [] /\
    forall t, t ∈ RenderGraph.resolved g /\
      (t <> RenderGraph.onInit -> t ∈ RenderGraph.begun g).
Proof.
  destruct ric; eexists; (split; [vm_compute; reflexivity|]);
    (split; [reflexivity|]);
    intros t; (split; [|intros Hne]); apply list_elem_of_In; cbn;
    destruct t; try tauto; contradiction Hne; reflexivity.
Qed.

(** ** Domain *)

Lemma resolved_domain_nonempty (s : Parent) (d : string) :
  resolved_domain s = Some d -> d <> "".
Proof.
  unfold resolved_domain.
  destruct (component_domain (component s) (env (props s))) as [[|a x]|];
    intros [= <-]; discriminate.
Qed.

(** X19: [getDomain()] never resolves with an empty domain.  The
    component's own domain wins and [buildUrl] is then not consulted, not
    even when it would throw; otherwise the domain is the one of the built
    URL; and every failure other than [buildUrl]'s own is
    [Could not determine domain]. *)
Theorem getDomain_outcome (u : UrlBuilder) (s : Parent) :
  (forall d, resolved_domain s = Some d -> getDomain u s = Resolved d) /\
  (forall d, getDomain u s = Resolved d ->
     d <> "" /\
     (resolved_domain s = Some d \/
      resolved_domain s = None /\
      exists builtUrl, component_buildUrl u = Some (Resolved builtUrl) /\
                       domain_of_url u builtUrl (env (props s)) = Some d)) /\
  (forall e, getDomain u s = Rejected e ->
     e = Error "Could not determine domain" \/
     component_buildUrl u = Some (Rejected e)).
Proof.
  unfold getDomain. split; [|split].
  - intros d Hd. rewrite Hd.
    pose proof (resolved_domain_nonempty s d Hd) as Hne.
    destruct d; [contradiction Hne; reflexivity|reflexivity].
  - intros d. destruct (resolved_domain s) as [d0|] eqn:Hr.
    + pose proof (resolved_domain_nonempty s d0 Hr) as Hne.
      destruct d0; [contradiction Hne; reflexivity|].
      intros [= <-]. split; [discriminate|left; reflexivity].
    + destruct (component_buildUrl u) as [[builtUrl|e]|] eqn:Hb; try discriminate.
      destruct (domain_of_url u builtUrl (env (props s))) as [[|a x]|] eqn:Hd;
        try discriminate.
      intros [= <-]. split; [discriminate|]. right. split; [reflexivity|].
      exists builtUrl. split; [reflexivity|exact Hd].
  - intros e. destruct (resolved_domain s) as [d0|] eqn:Hr.
    + pose proof (resolved_domain_nonempty s d0 Hr) as Hne.
      destruct d0; [contradiction Hne; reflexivity|discriminate].
    + destruct (component_buildUrl u) as [[builtUrl|e0]|] eqn:Hb.
      * destruct (domain_of_url u builtUrl (env (props s))) as [[|a x]|];
          try discriminate; intros [= <-]; left; reflexivity.
      * intros [= <-]. right. reflexivity.
      * intros [= <-]. left. reflexivity.
Qed.

(** ** Props for the child and for a delegate *)

(** X20: the child gets exactly the props whose definition does not say
    [sendToChild: false], each with the parent's value: a prop so marked
    is never among them, and a prop without a definition is passed on. *)
Theorem getPropsForChild_lookup {V : Type}
  (getProp : string -> option PropDef) (props : gmap string V) (key : string) :
  getPropsForChild getProp props !! key =
    if sent_to_child getProp key then props !! key else None.
Proof.
  unfold getPropsForChild.
  apply (map_fold_weak_ind
           (fun (result : gmap string V) (m : gmap string V) =>
              result !! key = if sent_to_child getProp key then m !! key else None)).
  - rewrite lookup_empty. destruct (sent_to_child getProp key); reflexivity.
  - intros i x m r Hi IH.
    destruct (decide (i = key)) as [->|Hne].
    + rewrite lookup_insert_eq.
      destruct (sent_to_child getProp key); [apply lookup_insert_eq|].
      exact IH.
    + rewrite (lookup_insert_ne m) by exact Hne.
      destruct (sent_to_child getProp i); [|exact IH].
      rewrite lookup_insert_ne by exact Hne. exact IH.
Qed.

Lemma delegate_props_fold {V : Type}
  (getProp : string -> option PropDef) (props : gmap string V)
  (propNames : list string) (acc : gmap string (option V)) :
  (forall n, n ∈ propNames -> is_Some (getProp n)) ->
  exists result,
    foldl (fun acc propName =>
             match acc with
             | Rejected e => Rejected e
             | Resolved result =>
                 match getProp propName with
                 | None => Rejected (Thrown "TypeError")
                 | Some prop =>
                     if allowDelegate prop
                     then Resolved (<[propName := props !! propName]> result)
                     else Resolved result
                 end
             end) (Resolved acc) propNames = Resolved result /\
    forall key,
      result !! key =
        if bool_decide (key ∈ propNames) &&
           match getProp key with Some prop => allowDelegate prop | None => false end
        then Some (props !! key) else acc !! key.
Proof.
  revert acc. induction propNames as [|name names IH]; intros acc Hdef.
  - exists acc. split; [reflexivity|]. intros key.
    rewrite bool_decide_eq_false_2 by apply not_elem_of_nil. reflexivity.
  - destruct (Hdef name) as [prop Hp]; [apply elem_of_cons; left; reflexivity|].
    assert (Hdef' : forall n, n ∈ names -> is_Some (getProp n)).
    { intros n Hn. apply Hdef. apply elem_of_cons. right. exact Hn. }
    cbn [foldl]. rewrite Hp.
    destruct (allowDelegate prop) eqn:Ha.
    + destruct (IH (<[name := props !! name]> acc) Hdef') as (result & Hr & Hk).
      exists result. split; [exact Hr|]. intros key. rewrite Hk.
      destruct (decide (key = name)) as [->|Hne].
      * rewrite Hp, Ha, lookup_insert_eq.
        rewrite (bool_decide_eq_true_2 (name ∈ name :: names))
          by (apply elem_of_cons; left; reflexivity).
        destruct (bool_decide (name ∈ names)); reflexivity.
      * rewrite lookup_insert_ne by congruence.
        assert (Hb : bool_decide (key ∈ name :: names) = bool_decide (key ∈ names)).
        { apply bool_decide_ext. rewrite elem_of_cons. tauto. }
        rewrite Hb. reflexivity.
    + destruct (IH acc Hdef') as (result & Hr & Hk).
      exists result. split; [exact Hr|]. intros key. rewrite Hk.
      destruct (decide (key = name)) as [->|Hne].
      * rewrite Hp, Ha, !andb_false_r. reflexivity.
      * assert (Hb : bool_decide (key ∈ name :: names) = bool_decide (key ∈ names)).
        { apply bool_decide_ext. rewrite elem_of_cons. tauto. }
        rewrite Hb. reflexivity.
Qed.

(** X21: the props handed to a delegate window are the four built-in ones
    and the props whose definition sets [allowDelegate], each with the
    parent's value; no other prop of the parent is among them. *)
Theorem delegate_props_lookup {V : Type}
  (getProp : string -> option PropDef) (propNames : list string) (props : gmap string V) :
  (forall n, n ∈ propNames -> is_Some (getProp n)) ->
  exists result,
    delegate_props getProp propNames props = Resolved result /\
    forall key,
      result !! key =
        if delegated getProp propNames key then Some (props !! key) else None.
Proof.
  intros Hdef. unfold delegate_props.
  destruct (delegate_props_fold getProp props propNames
              (<["onDisplay" := props !! "onDisplay"]>
                 (<["onClose" := props !! "onClose"]>
                    (<["dimensions" := props !! "dimensions"]>
                       (<["uid" := props !! "uid"]> ∅)))) Hdef) as (result & Hr & Hk).
  exists result. split; [exact Hr|]. intros key. rewrite Hk. unfold delegated.
  destruct (bool_decide (key ∈ propNames) &&
            match getProp key with Some prop => allowDelegate prop | None => false end);
    [rewrite orb_true_r; reflexivity|]. rewrite orb_false_r.
  unfold delegate_builtins.
  destruct (decide (key = "onDisplay")) as [->|H1]; [reflexivity|].
  rewrite lookup_insert_ne by congruence.
  destruct (decide (key = "onClose")) as [->|H2]; [reflexivity|].
  rewrite lookup_insert_ne by congruence.
  destruct (decide (key = "dimensions")) as [->|H3]; [reflexivity|].
  rewrite lookup_insert_ne by congruence.
  destruct (decide (key = "uid")) as [->|H4]; [reflexivity|].
  rewrite lookup_insert_ne by congruence. rewrite lookup_empty.
  rewrite bool_decide_eq_false_2; [reflexivity|].
  rewrite !elem_of_cons, elem_of_nil. tauto.
Qed.

Lemma delegate_props_lookup_witness :
  exists result,
    delegate_props sample_getProp ["token"; "locale"] sample_prop_values = Resolved result /\
    result !! "token" = None /\
    result !! "locale" = Some (Some "en_US").
Proof.
  destruct (delegate_props_lookup sample_getProp ["token"; "locale"] sample_prop_values)
    as (result & Hr & Hk).
  - intros n [->|[->|H]%elem_of_cons]%elem_of_cons; [eexists; reflexivity..|].
    apply elem_of_nil in H. contradiction.
  - exists result. split; [exact Hr|]. rewrite !Hk. split; reflexivity.
Defined.

(** ** Timeout *)

Lemma timer_teardowns_frame (evs : list Event) (ids : list nat) (pg : Page) :
  let out := foldr (fun id pg' =>
                      if teardown_ran (timer_teardown_name id) evs
                      then clear_timer id pg' else pg') pg ids in
  instance out = instance pg /\ next_timer out = next_timer pg /\
  props_timeout out = props_timeout pg /\
  (forall k, timers pg !! k = None -> timers out !! k = None) /\
  (this_timeout pg = None -> this_timeout out = None).
Proof.
  induction ids as [|id ids IH]; cbn; [repeat split; auto|].
  cbn zeta in IH. destruct IH as (Hi & Hn & Hp & Ht & Hth).
  destruct (teardown_ran (timer_teardown_name id) evs); cbn;
    [|repeat split; assumption].
  split; [exact Hi|]. split; [exact Hn|]. split; [exact Hp|]. split; [|reflexivity].
  intros k Hk. destruct (decide (id = k)) as [->|Hne].
  - apply lookup_delete_eq.
  - rewrite lookup_delete_ne by exact Hne. apply Ht, Hk.
Qed.

Lemma timer_teardowns_clear (evs : list Event) (ids : list nat) (pg : Page) (id : nat) :
  id ∈ ids ->
  teardown_ran (timer_teardown_name id) evs = true ->
  let out := foldr (fun id pg' =>
                      if teardown_ran (timer_teardown_name id) evs
                      then clear_timer id pg' else pg') pg ids in
  this_timeout out = None /\ timers out !! id = None.
Proof.
  intros Hin Hran. induction ids as [|a ids IH]; [apply elem_of_nil in Hin; contradiction|].
  cbn. apply elem_of_cons in Hin as [<-|Hin].
  - rewrite Hran. cbn. split; [reflexivity|apply lookup_delete_eq].
  - destruct (IH Hin) as [H1 H2].
    destruct (teardown_ran (timer_teardown_name a) evs); cbn; [|split; assumption].
    split; [reflexivity|].
    destruct (decide (a = id)) as [->|Hne]; [apply lookup_delete_eq|].
    rewrite lookup_delete_ne by exact Hne. exact H2.
Qed.

Lemma timer_teardowns_none (evs : list Event) (ids : list nat) (pg : Page) :
  (forall name, teardown_ran name evs = false) ->
  foldr (fun id pg' =>
           if teardown_ran (timer_teardown_name id) evs
           then clear_timer id pg' else pg') pg ids = pg.
Proof.
  intros H. induction ids as [|a ids IH]; [reflexivity|]. cbn. rewrite H. exact IH.
Qed.

Lemma teardown_ran_registered (name : string) (pre post : list Event) :
  teardown_ran name (pre ++ Ran (Teardown name (Resolved tt)) :: post) = true.
Proof.
  unfold teardown_ran. rewrite existsb_app. cbn. rewrite String.eqb_refl.
  apply orb_true_iff. right. reflexivity.
Qed.

Lemma destroy_events_registered (a : CleanupAction) (s : Parent) (ts : list Task) :
  clean s = ts ++ [(None, a)] ->
  destroy_events s = ([Log "destroy"; CleanAll] ++ ran ts) ++ Ran a :: [].
Proof.
  intros Hc. unfold destroy_events, Cleanup.hasTasks. rewrite Hc.
  destruct (ts ++ [(None, a)]) eqn:Hl; [destruct ts; discriminate Hl|].
  rewrite <- Hl. unfold ran. rewrite map_app, <- app_assoc. reflexivity.
Qed.

(** X22: once the child has initialised, the timeout set by [runTimeout]
    is off: [initChild] resolves [onInit] and clears the timer, so the
    timeout callback can no longer run and the instance is not put into
    its error state by a late deadline. *)
Theorem initChild_cancels_timeout (exports : ChildExports) (pg : Page) (timeout : Z) :
  props_timeout pg = Some timeout ->
  timeout <> 0 ->
  next_timer pg <> 0%nat ->
  onInit (instance pg) = Some Pending ->
  let id := next_timer pg in
  let armed := runTimeout pg in
  let ready := (initChild exports armed).1 in
  timers armed !! id = Some timeout /\
  (initChild exports armed).2 = Resolved tt /\
  onInit (instance ready) = Some Ready /\
  childExports (instance ready) = Some exports /\
  timers ready !! id = None /\
  fire_timeout id ready = ready /\
  errored (instance ready) = errored (instance pg).
Proof.
  intros Hp Ht Hn Ho. cbn zeta. unfold runTimeout. rewrite Hp.
  destruct (timeout =? 0) eqn:Hz; [apply Z.eqb_eq in Hz; contradiction|].
  unfold initChild. cbn [instance this_timeout timers set_childExports onInit
                         Cleanup.register fst set_clean].
  rewrite Ho. cbn [signal_resolve].
  destruct (Nat.eqb (next_timer pg) 0) eqn:Hid; [apply Nat.eqb_eq in Hid; contradiction|].
  cbn [fst snd]. split; [apply lookup_insert_eq|]. split; [reflexivity|].
  split; [reflexivity|]. split; [reflexivity|].
  split; [apply lookup_delete_eq|]. split; [|reflexivity].
  unfold fire_timeout. cbn [timers clearTimeout]. rewrite lookup_delete_eq. reflexivity.
Qed.

Lemma initChild_cancels_timeout_witness :
  fire_timeout 1 (initChild {| child_close := Resolved tt |} (runTimeout login_page)).1
  = (initChild {| child_close := Resolved tt |} (runTimeout login_page)).1.
Proof.
  pose proof (initChild_cancels_timeout {| child_close := Resolved tt |} login_page 5000
                eq_refl ltac:(discriminate) ltac:(discriminate) eq_refl) as H.
  cbn zeta in H. destruct H as (_ & _ & _ & _ & _ & H & _). exact H.
Defined.

Lemma page_error_clears (err : Err) (pg : Page) (id : nat) (ts : list Task) :
  errored (instance pg) = false ->
  clean (instance pg) = ts ++ [(None, timer_teardown id)] ->
  (id < next_timer pg)%nat ->
  instance (page_error err pg) = (error_default err (instance pg)).1 /\
  this_timeout (page_error err pg) = None /\
  timers (page_error err pg) !! id = None /\
  (forall k, timers pg !! k = None -> timers (page_error err pg) !! k = None).
Proof.
  intros He Hc Hid. unfold page_error, run_timer_teardowns.
  set (s' := (error_default err (instance pg)).1).
  destruct (error_trace_clean err (props (instance pg)) (instance pg) He) as (_ & Ht).
  set (notes := match onError (props (instance pg)) with
                | Some _ => [OnError err]
                | None => []
                end) in Ht.
  fold (error_default err (instance pg)) in Ht. fold s' in Ht.
  rewrite Ht, drop_app_length, (destroy_events_registered _ _ ts Hc), <- app_assoc.
  cbn [next_timer set_instance].
  match goal with |- context [foldr ?f ?p ?l] =>
    destruct (timer_teardowns_frame
                (([Log "destroy"; CleanAll] ++ ran ts) ++ [Ran (timer_teardown id)] ++ notes)
                l p) as (Hi & _ & _ & Hk & _);
    destruct (timer_teardowns_clear
                (([Log "destroy"; CleanAll] ++ ran ts) ++ [Ran (timer_teardown id)] ++ notes)
                l p id) as (H1 & H2)
  end.
  - apply elem_of_seq. lia.
  - apply teardown_ran_registered.
  - split; [exact Hi|]. split; [exact H1|]. split; [exact H2|]. exact Hk.
Qed.

(** X23: when the timeout set by [runTimeout] comes due before the child
    has initialised, the instance goes into its error state with the
    timeout error: [onInit] is rejected with what the component's
    [createError] makes of
    [Loading component timed out after <timeout> milliseconds], every
    teardown is run, and the timer is gone, so this happens once. *)
Theorem timeout_fires_error (pg : Page) (timeout : Z) :
  props_timeout pg = Some timeout ->
  timeout <> 0 ->
  errored (instance pg) = false ->
  onInit (instance pg) = Some Pending ->
  let id := next_timer pg in
  let fired := fire_timeout id (runTimeout pg) in
  errored (instance fired) = true /\
  onInit (instance fired) =
    Some (Failed (createError (component (instance pg)) (timeout_message timeout))) /\
  clean (instance fired) = [] /\
  this_timeout fired = None /\
  fire_timeout id fired = fired.
Proof.
  intros Hp Ht He Ho. cbn zeta.
  destruct (timeout =? 0) eqn:Hz; [apply Z.eqb_eq in Hz; contradiction|].
  set (s0 := set_clean (clean (instance pg) ++ [(None, timer_teardown (next_timer pg))])
               (instance pg)).
  set (armed := {| instance := s0; props_timeout := props_timeout pg;
                   this_timeout := Some (next_timer pg);
                   timers := <[next_timer pg := timeout]> (timers pg);
                   next_timer := S (next_timer pg) |}).
  assert (Ha : runTimeout pg = armed).
  { unfold runTimeout, armed. rewrite Hp, Hz. reflexivity. }
  rewrite Ha.
  set (pg1 := set_instance (observe [Log "timed_out"] s0)
                (clearTimeout (next_timer pg) armed)).
  assert (Hf : fire_timeout (next_timer pg) armed
               = page_error (createError (component (instance pg))
                               (timeout_message timeout)) pg1).
  { unfold fire_timeout. cbn [timers armed]. rewrite lookup_insert_eq.
    f_equal. unfold on_instance, appended, log, emit.
    cbn [fst snd trace set_trace instance clearTimeout armed].
    rewrite drop_app_length.
    unfold run_timer_teardowns. apply timer_teardowns_none. intros name. reflexivity. }
  rewrite Hf.
  destruct (page_error_clears
              (createError (component (instance pg)) (timeout_message timeout))
              pg1 (next_timer pg)
              (clean (instance pg))) as (Hi & Hth & Htm & _);
    [exact He | reflexivity | cbn; lia |].
  rewrite Hi. unfold error_default.
  assert (He1 : errored (instance pg1) = false) by exact He.
  split; [apply error_sets_flag|].
  split; [rewrite (error_onInit _ _ _ He1); cbn [instance pg1 set_instance observe onInit
            set_trace s0 set_clean]; rewrite Ho; reflexivity|].
  split; [apply (error_trace_clean _ _ _ He1)|].
  split; [exact Hth|].
  unfold fire_timeout. rewrite Htm. reflexivity.
Qed.

Lemma timeout_fires_error_witness :
  onInit (instance (fire_timeout 1 (runTimeout login_page)))
  = Some (Failed (Error "[login-button] Loading component timed out after 5000 milliseconds")).
Proof.
  pose proof (timeout_fires_error login_page 5000 eq_refl ltac:(discriminate)
                eq_refl eq_refl) as H.
  cbn zeta in H. destruct H as (_ & H & _). exact H.
Defined.

(** X24: [destroy()] cancels the timeout set by [runTimeout]: the closure
    registered with the timer is run with the other teardowns, so the
    timer is cleared, [this.timeout] is deleted, and a destroyed instance
    is not put into its error state when the deadline passes. *)
Theorem destroy_cancels_timeout (pg : Page) (timeout : Z) :
  props_timeout pg = Some timeout ->
  timeout <> 0 ->
  let id := next_timer pg in
  let armed := runTimeout pg in
  let destroyed := (on_instance destroy armed).1 in
  this_timeout armed = Some id /\
  timers armed !! id = Some timeout /\
  this_timeout destroyed = None /\
  timers destroyed !! id = None /\
  fire_timeout id destroyed = destroyed /\
  errored (instance destroyed) = errored (instance pg).
Proof.
  intros Hp Ht. cbn zeta. unfold runTimeout. rewrite Hp.
  destruct (timeout =? 0) eqn:Hz; [apply Z.eqb_eq in Hz; contradiction|].
  cbn [this_timeout timers]. split; [reflexivity|]. split; [apply lookup_insert_eq|].
  unfold on_instance, appended, Cleanup.register. cbn [instance fst].
  set (s0 := set_clean (clean (instance pg) ++ [(None, timer_teardown (next_timer pg))])
               (instance pg)).
  destruct (destroy_frame s0) as (Her & _ & _ & _ & _ & _ & _ & _ & _ & Htr).
  destruct (destroy s0) as [sd rd]. cbn [fst snd] in *.
  rewrite Htr, drop_app_length,
    (destroy_events_registered _ s0 (clean (instance pg)) eq_refl).
  unfold run_timer_teardowns. cbn [next_timer set_instance].
  match goal with |- context [foldr ?f ?p ?l] =>
    destruct (timer_teardowns_frame
                (([Log "destroy"; CleanAll] ++ ran (clean (instance pg))) ++
                 [Ran (timer_teardown (next_timer pg))]) l p) as (Hi & _);
    destruct (timer_teardowns_clear
                (([Log "destroy"; CleanAll] ++ ran (clean (instance pg))) ++
                 [Ran (timer_teardown (next_timer pg))]) l p (next_timer pg)) as (H1 & H2)
  end.
  - apply elem_of_seq. lia.
  - apply teardown_ran_registered.
  - split; [exact H1|]. split; [exact H2|]. split.
    + unfold fire_timeout. rewrite H2. reflexivity.
    + rewrite Hi. exact Her.
Qed.

Lemma destroy_cancels_timeout_witness :
  timers (runTimeout login_page) !! 1%nat = Some 5000 /\
  timers (on_instance destroy (runTimeout login_page)).1 !! 1%nat = None.
Proof.
  pose proof (destroy_cancels_timeout login_page 5000 eq_refl ltac:(discriminate)) as H.
  cbn zeta in H. destruct H as (_ & H1 & _ & H2 & _). split; [exact H1 | exact H2].
Defined.
